(** * download_fallback_images.py: fetch-and-store runner

    A shallow embedding of [src/download_fallback_images.py] and the
    properties of its three functions [ensure_directory], [download_image]
    and [main].

    The script talks to three pieces of the outside world: the network
    (through [requests.get]), the file system (through [os.makedirs],
    [open] and [write]) and the standard output.  They are modelled by one
    [world] record that the script threads through a state-and-exception
    monad.  The answers of the network, the way the HTTP client cuts a
    body into pieces, and the permissions of the file system are oracles
    of the world, universally quantified in every theorem.

    Scope of the model:
    - the file system is a tree of directories and regular files below
      the working directory, with names that differ when their bytes do
      and no links; the model reads a path as the operating system does
      when the path is ordinary ([ordinary_path]: relative, made of plain
      names, with no [.] and [..], no empty name and no slash at either
      end), which the paths of the script are; the statements about one
      call of [ensure_directory] or [download_image] assume it of their
      path where the path matters;
    - a call of [requests.get] ends with a response or with an error; a
      call that is never answered (the script sets no timeout) has no
      outcome and no place in the model;
    - the script is translated twice.  On the platform of [world], which
      the properties of [main] are about, [print] appends its line to the
      output and nobody interrupts the process.  On the platform of
      [Faulty], [print] can raise and a [KeyboardInterrupt] can arrive
      before any operation; [download_image] is translated over it as
      well, and where no such thing happens the two translations agree
      ([agrees_download_image]). *)

From stdpp Require Import gmap strings list fin_maps pretty.
From Stdlib Require Import Strings.Ascii Strings.Byte.

Set Warnings "-abstract-large-number".

Open Scope string_scope.
Open Scope list_scope.

(** * The model *)

(** ** Exceptions *)

Module Py.

(** The exception classes that occur around the script.  [HTTPError]
    derives from [RequestException], which derives from [OSError], which
    derives from [Exception]; so does [ValueError], from which
    [UnicodeEncodeError] derives; [SystemExit] and [KeyboardInterrupt]
    derive from [BaseException] only. *)
Inductive exn : Type :=
  | OSError (msg : string)
  | RequestException (msg : string)
  | HTTPError (msg : string)
  | ValueError (msg : string)
  | UnicodeEncodeError (msg : string)
  | SystemExit (code : Z)
  | KeyboardInterrupt.

(** [isinstance(e, Exception)] *)
Definition isinstance_Exception (e : exn) : bool :=
  match e with
  | OSError _ | RequestException _ | HTTPError _ => true
  | ValueError _ | UnicodeEncodeError _ => true
  | SystemExit _ | KeyboardInterrupt => false
  end.

(** [str(e)], as interpolated by [f"{e}"] *)
Definition str (e : exn) : string :=
  match e with
  | OSError msg | RequestException msg | HTTPError msg => msg
  | ValueError msg | UnicodeEncodeError msg => msg
  | SystemExit code => pretty code
  | KeyboardInterrupt => ""
  end.

Inductive result (A : Type) : Type :=
  | Returned (a : A)
  | Raised (e : exn).
Arguments Returned {A} a.
Arguments Raised {A} e.

End Py.
Export Py.

(** ** The world *)

Abbreviation path := (list string).

Inductive node : Type :=
  | Dir
  | File (content : list byte).

(** What a server sends back: status line and body; how the HTTP client
    hands the body out when asked for chunks of a given size ([cuts n]:
    the lengths, less one, of the pieces [iter_content(chunk_size=n)]
    yields: whole [n]-byte slices for a plain body, the transfer chunks
    for a chunked one, something else again after decoding); and whether
    the connection breaks while the body is streamed ([Some k]: after [k]
    pieces have been handed out). *)
Record response : Type := {
  status_code : Z;
  reason : string;
  raw : list byte;
  cuts : nat → list nat;
  stream_fault : option nat
}.

Inductive get_outcome : Type :=
  | Unreachable (msg : string)
  | Responded (r : response).

Record world : Type := {
  (** oracle: how the [k]-th call of [requests.get] of this process, made
      with [url], ends: with the response the client comes back with (the
      last one, when it followed redirects on the way), or with an error *)
  net : nat → string → get_outcome;
  (** oracle: paths the process may not create, as a directory or as a
      new file *)
  deny_create : path → bool;
  (** oracle: files the process may not open for writing once they are
      there, be it that they are read-only already or that the process
      creates them so (its umask) *)
  deny_rewrite : path → bool;
  (** oracle: largest size a file at this path may reach ([None]: no limit) *)
  quota : path → option nat;
  (** the tree below the working directory *)
  fs : gmap path node;
  (** lines printed so far *)
  stdout : list string;
  (** the URLs [requests.get] was called with so far, oldest first *)
  requests : list string
}.

(** The process may not create the path, or may not write to it again. *)
Definition denied (w : world) (p : path) : bool :=
  deny_create w p || deny_rewrite w p.

Definition set_fs (f : gmap path node → gmap path node) (w : world) : world :=
  {| net := net w; deny_create := deny_create w;
     deny_rewrite := deny_rewrite w; quota := quota w;
     fs := f (fs w); stdout := stdout w; requests := requests w |}.

Definition add_stdout (line : string) (w : world) : world :=
  {| net := net w; deny_create := deny_create w;
     deny_rewrite := deny_rewrite w; quota := quota w;
     fs := fs w; stdout := stdout w ++ [line]; requests := requests w |}.

Definition add_request (url : string) (w : world) : world :=
  {| net := net w; deny_create := deny_create w;
     deny_rewrite := deny_rewrite w; quota := quota w;
     fs := fs w; stdout := stdout w; requests := requests w ++ [url] |}.

(** ** The monad of the script: state and exceptions *)

Definition M (A : Type) : Type := world → result A * world.

#[global] Instance M_ret : MRet M := λ A a w, (Returned a, w).

#[global] Instance M_bind : MBind M := λ A B f m w,
  match m w with
  | (Returned a, w') => f a w'
  | (Raised e, w') => (Raised e, w')
  end.

Definition raise {A : Type} (e : exn) : M A := λ w, (Raised e, w).

(** [try: body  except Exception as e: handler e] *)
Definition try_except_Exception {A : Type} (body : M A) (handler : exn → M A) : M A :=
  λ w, match body w with
       | (Returned a, w') => (Returned a, w')
       | (Raised e, w') =>
           if isinstance_Exception e then handler e w' else (Raised e, w')
       end.

(** [print(line)], on a standard output that takes every line *)
Definition print (line : string) : M unit :=
  λ w, (Returned tt, add_stdout line w).

(** [sys.exit(code)] *)
Definition sys_exit {A : Type} (code : Z) : M A := raise (SystemExit code).

Definition nl : string := String (Ascii.ascii_of_nat 10) "".

(** ** The file system: [os.makedirs], [open], [write] *)

(** Components of a [/]-separated path; empty components are dropped.
    For an ordinary path these are its names, in order. *)
Fixpoint split_path_go (s : string) (cur : string) : path :=
  match s with
  | EmptyString => if decide (cur = "") then [] else [cur]
  | String c s' =>
      if decide (c = "/"%char) then
        if decide (cur = "") then split_path_go s' ""
        else cur :: split_path_go s' ""
      else split_path_go s' (cur +:+ String c "")
  end.

Definition split_path (s : string) : path := split_path_go s "".

Definition join_path (p : path) : string := String.concat "/" p.

(** The directory a path lies in; [[]] is the working directory. *)
Definition parent (p : path) : path := removelast p.

(** [os.path.isdir]; the working directory always is one. *)
Definition isdir (t : gmap path node) (p : path) : bool :=
  match p with
  | [] => true
  | _ => match t !! p with Some Dir => true | _ => false end
  end.

Definition errno_msg (err : string) (p : path) : string :=
  err +:+ ": '" +:+ join_path p +:+ "'".

(** The error of an operation on [p] whose parent is no directory:
    [ENOTDIR] when a file is in its place, [ENOENT] when it is missing. *)
Definition parent_error (t : gmap path node) (p : path) : exn :=
  match t !! parent p with
  | Some (File _) => OSError (errno_msg "[Errno 20] Not a directory" p)
  | _ => OSError (errno_msg "[Errno 2] No such file or directory" p)
  end.

(** [os.mkdir(p)] *)
Definition mkdir (p : path) : M unit := λ w,
  match p with
  | [] => (Raised (OSError (errno_msg "[Errno 2] No such file or directory" p)), w)
  | _ =>
      match fs w !! p with
      | Some _ => (Raised (OSError (errno_msg "[Errno 17] File exists" p)), w)
      | None =>
          if negb (isdir (fs w) (parent p)) then
            (Raised (parent_error (fs w) p), w)
          else if deny_create w p then
            (Raised (OSError (errno_msg "[Errno 13] Permission denied" p)), w)
          else (Returned tt, set_fs (insert p Dir) w)
      end
  end.

(** One level of [os.makedirs(..., exist_ok=True)]: make the directory,
    and let the error pass when it is there already. *)
Definition mkdir_exist_ok (p : path) : M unit := λ w,
  match mkdir p w with
  | (Raised e, w') => if isdir (fs w') p then (Returned tt, w') else (Raised e, w')
  | r => r
  end.

(** The levels of [os.makedirs], from the working directory downwards:
    [done] is there, [todo] are the names still to descend through.  This
    is the documented contract of the function (all missing intermediate
    directories are made, an existing directory is no error), not the
    recursion of its implementation; on a tree in which every entry
    lies in a directory the two end in the same tree and raise in the
    same cases. *)
Fixpoint makedirs_from (done : path) (todo : list string) : M unit :=
  match todo with
  | [] => mret tt
  | c :: rest =>
      mkdir_exist_ok (done ++ [c]);;
      makedirs_from (done ++ [c]) rest
  end.

(** [os.makedirs(name, exist_ok=True)] for an ordinary [name]: every
    missing directory on the way to [name] is created, [name] last; the
    empty path is refused. *)
Definition makedirs (name : string) : M unit :=
  match split_path name with
  | [] => mkdir []
  | p => makedirs_from [] p
  end.

(** [open(name, 'wb')] for an ordinary [name]: creates the file or
    truncates it. *)
Definition open_wb (name : string) : M path := λ w,
  let p := split_path name in
  match p with
  | [] => (Raised (OSError (errno_msg "[Errno 2] No such file or directory" p)), w)
  | _ =>
      if negb (isdir (fs w) (parent p)) then
        (Raised (parent_error (fs w) p), w)
      else match fs w !! p with
           | Some Dir => (Raised (OSError (errno_msg "[Errno 21] Is a directory" p)), w)
           | Some (File _) =>
               if deny_rewrite w p then
                 (Raised (OSError (errno_msg "[Errno 13] Permission denied" p)), w)
               else (Returned p, set_fs (insert p (File [])) w)
           | None =>
               if deny_create w p then
                 (Raised (OSError (errno_msg "[Errno 13] Permission denied" p)), w)
               else (Returned p, set_fs (insert p (File [])) w)
           end
  end.

(** [f.write(chunk)] on a file opened with [open_wb]: appends, unless the
    file would outgrow what the device has left for it. *)
Definition write (f : path) (chunk : list byte) : M unit := λ w,
  let old := match fs w !! f with Some (File c) => c | _ => [] end in
  match quota w f with
  | Some limit =>
      if decide (List.length old + List.length chunk ≤ limit)%nat then
        (Returned tt, set_fs (insert f (File (old ++ chunk))) w)
      else (Raised (OSError "[Errno 28] No space left on device"), w)
  | None => (Returned tt, set_fs (insert f (File (old ++ chunk))) w)
  end.

(** ** The HTTP client: [requests.get], [raise_for_status], [iter_content] *)

(** [requests.get(url, stream=True)]: the call is recorded; how it ends is
    the network's answer. *)
Definition requests_get (url : string) : M response := λ w,
  match net w (List.length (requests w)) url with
  | Unreachable msg => (Raised (RequestException msg), add_request url w)
  | Responded r => (Returned r, add_request url w)
  end.

(** The statuses [raise_for_status] rejects: 4xx and 5xx. *)
Definition is_error_status (s : Z) : bool :=
  bool_decide (400 ≤ s < 600)%Z.

(** [response.raise_for_status()] *)
Definition raise_for_status (url : string) (r : response) : M unit :=
  if bool_decide (400 ≤ status_code r < 500)%Z then
    raise (HTTPError (pretty (status_code r) +:+ " Client Error: " +:+ reason r
                      +:+ " for url: " +:+ url))
  else if bool_decide (500 ≤ status_code r < 600)%Z then
    raise (HTTPError (pretty (status_code r) +:+ " Server Error: " +:+ reason r
                      +:+ " for url: " +:+ url))
  else mret tt.

(** What a generator hands to a [for] loop: items, then the end or an
    exception. *)
Inductive stream (A : Type) : Type :=
  | Stop
  | Yield (a : A) (rest : stream A)
  | Throw (e : exn).
Arguments Stop {A}.
Arguments Yield {A} a rest.
Arguments Throw {A} e.

(** The body cut into non-empty pieces of the given lengths (each less
    one); what is left when the lengths run out is the last piece. *)
Fixpoint cut_by (sizes : list nat) (data : list byte) : list (list byte) :=
  match data with
  | [] => []
  | _ =>
      match sizes with
      | [] => [data]
      | s :: rest => take (S s) data :: cut_by rest (drop (S s) data)
      end
  end.

Fixpoint deliver (chunks : list (list byte)) (fault : option nat) : stream (list byte) :=
  match fault with
  | Some 0 => Throw (RequestException "Connection broken: IncompleteRead")
  | _ =>
      match chunks with
      | [] => Stop
      | c :: cs => Yield c (deliver cs (Nat.pred <$> fault))
      end
  end.

(** [response.iter_content(chunk_size=n)] *)
Definition iter_content (chunk_size : nat) (r : response) : stream (list byte) :=
  deliver (cut_by (cuts r chunk_size) (raw r)) (stream_fault r).

(** [for x in s: body x] *)
Fixpoint for_each {A : Type} (s : stream A) (body : A → M unit) : M unit :=
  match s with
  | Stop => mret tt
  | Yield a rest => body a;; for_each rest body
  | Throw e => raise e
  end.

(** [with open(name, 'wb') as f: body f]; closing the file changes nothing
    the model looks at. *)
Definition with_open_wb {A : Type} (name : string) (body : path → M A) : M A :=
  f ← open_wb name; body f.

(** ** The script *)

(** [ensure_directory(path)] *)
Definition ensure_directory (path : string) : M unit :=
  makedirs path.

(** [download_image(url, local_path)] *)
Definition download_image (url local_path : string) : M bool :=
  try_except_Exception
    (print ("Downloading: " +:+ url);;
     response ← requests_get url;
     raise_for_status url response;;
     with_open_wb local_path (λ f,
       for_each (iter_content 8192 response) (λ chunk, write f chunk));;
     print ("✓ Saved to: " +:+ local_path);;
     mret true)
    (λ e,
     print ("✗ Failed to download " +:+ url +:+ ": " +:+ str e);;
     mret false).

Record descriptor : Type := {
  url : string;
  local_path : string;
  description : string
}.

Definition images_to_download : list descriptor := [
  {| url := "https://images.unsplash.com/photo-1489515217757-5fd1be406fef?auto=format&fit=crop&w=800&q=80";
     local_path := "public/images/fallbacks/attraction-fallback.jpg";
     description := "Fallback attraction image" |};
  {| url := "https://images.unsplash.com/photo-1467269204594-9661b134dd2b?auto=format&fit=crop&w=1600&q=80";
     local_path := "public/images/fallbacks/city-fallback.jpg";
     description := "Fallback city image" |};
  {| url := "https://images.unsplash.com/photo-1489515217757-5fd1be406fef?auto=format&fit=crop&w=1200&q=80";
     local_path := "public/images/fallbacks/hero-fallback.jpg";
     description := "Fallback hero image" |};
  {| url := "https://images.unsplash.com/photo-1488646953014-85cb44e25828?auto=format&fit=crop&w=1200&q=80";
     local_path := "public/images/fallbacks/seo-default.jpg";
     description := "SEO default meta image" |};
  {| url := "https://images.unsplash.com/photo-1469854523086-cc02fe5d8800?auto=format&fit=crop&w=1200&q=80";
     local_path := "public/images/fallbacks/about-page.jpg";
     description := "About page image" |}
].

(** The [for image_info in images_to_download] loop of [main], with the
    counter it updates. *)
Fixpoint download_loop (images : list descriptor) (success_count : nat) : M nat :=
  match images with
  | [] => mret success_count
  | image_info :: rest =>
      print ("📥 " +:+ description image_info);;
      ok ← download_image (url image_info) (local_path image_info);
      let success_count := if ok : bool then S success_count else success_count in
      print "";;
      download_loop rest success_count
  end.

Definition summary (success_count total_count : nat) : string :=
  "Download complete: " +:+ pretty success_count +:+ "/" +:+ pretty total_count
  +:+ " images downloaded successfully".

(** The body of [main], for any list of descriptors. *)
Definition main_with (images : list descriptor) : M unit :=
  ensure_directory "public/images/fallbacks";;
  print ("Starting download of fallback images..." +:+ nl);;
  let total_count := List.length images in
  success_count ← download_loop images 0;
  print (summary success_count total_count);;
  if decide (success_count = total_count) then
    print "✅ All images downloaded successfully!";;
    print (nl +:+ "Next steps:");;
    print "1. Update config files to use local image paths";;
    print "2. Test the application to ensure images load correctly";;
    print "3. Commit changes to git"
  else
    print "⚠️  Some images failed to download. Please check the errors above.";;
    sys_exit 1.

(** [main()] *)
Definition main : M unit := main_with images_to_download.

(** The exit status of the interpreter: 0 when the script runs to its end,
    the argument of [sys.exit], 1 for an exception nobody caught. *)
Definition exit_code {A : Type} (r : result A) : Z :=
  match r with
  | Returned _ => 0
  | Raised (SystemExit code) => code
  | Raised _ => 1
  end.

(** ** A platform on which printing can fail and interrupts arrive

    The functions above run on a platform whose standard output takes
    every line and on which nobody interrupts the process.  The platform
    of this section drops both assumptions: [print] can raise, and a
    [KeyboardInterrupt] can arrive before any operation.  [download_image]
    is translated once more over it, from the same source lines. *)

Module Faulty.

(** What can go wrong when a line is printed: the output was closed, the
    line has a character the output's encoding lacks, the reader of a pipe
    went away. *)
Inductive print_failure : Type :=
  | ClosedFile
  | CannotEncode
  | BrokenPipe.

Definition print_exception (f : print_failure) : exn :=
  match f with
  | ClosedFile => ValueError "I/O operation on closed file."
  | CannotEncode => UnicodeEncodeError "codec can't encode character"
  | BrokenPipe => OSError "[Errno 32] Broken pipe"
  end.

Record platform : Type := {
  (** network, file system and output, as before *)
  base : world;
  (** oracle: what goes wrong when the [k]-th [print] of the process puts
      out [line] ([None]: nothing) *)
  print_fault : nat → string → option print_failure;
  (** oracle: whether the interrupt arrives before the [k]-th operation
      of the process *)
  interrupt : nat → bool;
  (** calls of [print] so far *)
  prints : nat;
  (** operations so far *)
  steps : nat
}.

Definition set_base (w : world) (p : platform) : platform :=
  {| base := w; print_fault := print_fault p; interrupt := interrupt p;
     prints := prints p; steps := steps p |}.

Definition count_print (p : platform) : platform :=
  {| base := base p; print_fault := print_fault p; interrupt := interrupt p;
     prints := S (prints p); steps := steps p |}.

Definition count_step (p : platform) : platform :=
  {| base := base p; print_fault := print_fault p; interrupt := interrupt p;
     prints := prints p; steps := S (steps p) |}.

Definition MF (A : Type) : Type := platform → result A * platform.

#[global] Instance MF_ret : MRet MF := λ A a p, (Returned a, p).

#[global] Instance MF_bind : MBind MF := λ A B f m p,
  match m p with
  | (Returned a, p') => f a p'
  | (Raised e, p') => (Raised e, p')
  end.

(** [try: body  except Exception as e: handler e] *)
Definition try_except_Exception {A : Type} (body : MF A) (handler : exn → MF A) : MF A :=
  λ p, match body p with
       | (Returned a, p') => (Returned a, p')
       | (Raised e, p') =>
           if isinstance_Exception e then handler e p' else (Raised e, p')
       end.

(** The point before an operation, where the interrupt can arrive. *)
Definition step : MF unit := λ p,
  if interrupt p (steps p) then (Raised KeyboardInterrupt, count_step p)
  else (Returned tt, count_step p).

(** An operation of the platform above, run on this one. *)
Definition run {A : Type} (m : M A) : MF A := λ p,
  ((m (base p)).1, set_base (m (base p)).2 p).

Definition op {A : Type} (m : M A) : MF A := step;; run m.

(** What [print] does with the line once it has started. *)
Definition put (line : string) : MF unit := λ p,
  match print_fault p (prints p) line with
  | Some f => (Raised (print_exception f), count_print p)
  | None => run (print line) (count_print p)
  end.

(** [print(line)] *)
Definition print (line : string) : MF unit := step;; put line.

(** [requests.get(url, stream=True)] *)
Definition requests_get (url : string) : MF response := op (requests_get url).

(** [response.raise_for_status()] *)
Definition raise_for_status (url : string) (r : response) : MF unit :=
  op (raise_for_status url r).

(** [open(name, 'wb')] *)
Definition open_wb (name : string) : MF path := op (open_wb name).

(** [f.write(chunk)] *)
Definition write (f : path) (chunk : list byte) : MF unit := op (write f chunk).

(** [for x in s: body x] *)
Fixpoint for_each {A : Type} (s : stream A) (body : A → MF unit) : MF unit :=
  match s with
  | Stop => mret tt
  | Yield a rest => body a;; for_each rest body
  | Throw e => op (raise e)
  end.

(** [with open(name, 'wb') as f: body f] *)
Definition with_open_wb {A : Type} (name : string) (body : path → MF A) : MF A :=
  f ← open_wb name; body f.

(** [download_image(url, local_path)] *)
Definition download_image (url local_path : string) : MF bool :=
  try_except_Exception
    (print ("Downloading: " +:+ url);;
     response ← requests_get url;
     raise_for_status url response;;
     with_open_wb local_path (λ f,
       for_each (iter_content 8192 response) (λ chunk, write f chunk));;
     print ("✓ Saved to: " +:+ local_path);;
     mret true)
    (λ e,
     print ("✗ Failed to download " +:+ url +:+ ": " +:+ str e);;
     mret false).

(** Nothing of the kind happens: every line can be printed and no
    interrupt arrives. *)
Definition quiet (p : platform) : Prop :=
  (∀ k, interrupt p k = false) ∧ (∀ k line, print_fault p k line = None).


(** The quiet platform over a world. *)
Definition calm (w : world) : platform :=
  {| base := w; print_fault := λ _ _, None; interrupt := λ _, false;
     prints := 0; steps := 0 |}.

(** A standard output that takes ASCII only (a C locale, a legacy code
    page). *)
Definition ascii_only (line : string) : bool :=
  forallb (λ a, (Ascii.nat_of_ascii a <? 128)%nat) (String.list_ascii_of_string line).

Definition ascii_stdout (w : world) : platform :=
  {| base := w;
     print_fault := λ _ line, if ascii_only line then None else Some CannotEncode;
     interrupt := λ _, false; prints := 0; steps := 0 |}.

(** The standard output was closed before the script started. *)
Definition closed_stdout (w : world) : platform :=
  {| base := w; print_fault := λ _ _, Some ClosedFile;
     interrupt := λ _, false; prints := 0; steps := 0 |}.


End Faulty.

(** * Vocabulary of the properties *)

(** ** Steps of [download_image] *)

(** No operation of the script changes the oracles. *)
Definition same_oracles (w w' : world) : Prop :=
  net w' = net w ∧ deny_create w' = deny_create w
  ∧ deny_rewrite w' = deny_rewrite w ∧ quota w' = quota w.

(** The bytes of the file at [f]. *)
Definition file_at (w : world) (f : path) : list byte :=
  match fs w !! f with Some (File c) => c | _ => [] end.

(** The two lines [download_image] ends with. *)
Definition failure_line (url : string) (e : exn) : string :=
  "✗ Failed to download " +:+ url +:+ ": " +:+ str e.

Definition saved_line (local_path : string) : string :=
  "✓ Saved to: " +:+ local_path.

(** The [with] block of [download_image]. *)
Definition store (local_path : string) (r : response) : M unit :=
  with_open_wb local_path (λ f,
    for_each (iter_content 8192 r) (λ chunk, write f chunk)).

(** The world once the request has gone out. *)
Definition requested (url : string) (w : world) : world :=
  add_request url (add_stdout ("Downloading: " +:+ url) w).

(** Whether [open(..., 'wb')] goes through. *)
Definition can_open (w : world) (p : path) : bool :=
  match p with
  | [] => false
  | _ => isdir (fs w) (parent p)
         && match fs w !! p with
            | Some Dir => false
            | Some (File _) => negb (deny_rewrite w p)
            | None => negb (deny_create w p)
            end
  end.

(** Whether [open(..., 'wb')] goes through now and will again once the
    process has written the file. *)
Definition openable (w : world) (p : path) : bool :=
  match p with
  | [] => false
  | _ => isdir (fs w) (parent p)
         && match fs w !! p with
            | Some Dir => false
            | Some (File _) => negb (deny_rewrite w p)
            | None => negb (denied w p)
            end
  end.

(** Whether the write loop gets through [chunks]: the connection must not
    break before the last chunk is out, and each write must fit.  [size]
    is what the file holds so far. *)
Fixpoint fits (chunks : list (list byte)) (fault : option nat) (size : nat)
    (limit : option nat) : bool :=
  match fault with
  | Some 0 => false
  | _ =>
      match chunks with
      | [] => true
      | c :: cs =>
          match limit with
          | Some l => bool_decide (size + List.length c ≤ l)%nat
          | None => true
          end
          && fits cs (Nat.pred <$> fault) (size + List.length c) limit
      end
  end.

(** The chunks [iter_content(chunk_size=8192)] cuts the body into. *)
Definition body_chunks (r : response) : list (list byte) :=
  cut_by (cuts r 8192) (raw r).

(** Decides, from the oracles and the tree, whether [download_image]
    will report success. *)
Definition download_succeeds (url local_path : string) (w : world) : bool :=
  match net w (List.length (requests w)) url with
  | Unreachable _ => false
  | Responded r =>
      negb (is_error_status (status_code r))
      && can_open w (split_path local_path)
      && fits (body_chunks r) (stream_fault r) 0 (quota w (split_path local_path))
  end.

(** The request failed, or came back with a status that
    [raise_for_status] rejects. *)
Definition get_failed (url : string) (w : world) : bool :=
  match net w (List.length (requests w)) url with
  | Unreachable _ => true
  | Responded r => is_error_status (status_code r)
  end.

(** Whether a write of [chunk] to a file that holds [size] bytes stays
    within [limit]. *)
Definition room (size : nat) (chunk : list byte) (limit : option nat) : bool :=
  match limit with
  | Some l => bool_decide (size + List.length chunk ≤ l)%nat
  | None => true
  end.

(** The pieces of a stream that the write loop puts into a file that
    holds [size] bytes: the loop stops at the end of the stream, where the
    stream raises, or at the first piece that does not fit. *)
Fixpoint stored_items (s : stream (list byte)) (size : nat)
    (limit : option nat) : list (list byte) :=
  match s with
  | Yield c rest =>
      if room size c limit
      then c :: stored_items rest (size + List.length c) limit
      else []
  | Stop | Throw _ => []
  end.

(** The statuses that report success: 2xx. *)
Definition is_success_status (s : Z) : bool :=
  bool_decide (200 ≤ s < 300)%Z.

(** The request failed, or came back with a status that is not a
    success. *)
Definition no_success (url : string) (w : world) : bool :=
  match net w (List.length (requests w)) url with
  | Unreachable _ => true
  | Responded r => negb (is_success_status (status_code r))
  end.

(** ** Paths *)

(** A name that is nothing but a name: not [.] or [..], no NUL, not longer
    than a file system takes. *)
Definition ordinary_name (c : string) : bool :=
  negb (bool_decide (c = ".")) && negb (bool_decide (c = ".."))
  && bool_decide (String.length c ≤ 255)%nat
  && forallb (λ a, negb (bool_decide (a = Ascii.zero)))
       (String.list_ascii_of_string c).

(** The paths the model reads as the operating system does: relative,
    made of ordinary names with one [/] between them, not empty. *)
Definition ordinary_path (name : string) : bool :=
  bool_decide (join_path (split_path name) = name)
  && negb (bool_decide (split_path name = []))
  && forallb ordinary_name (split_path name).

(** ** The two platforms *)

(** On a quiet platform the computation does what [m] does. *)
Definition agrees {A : Type} (mf : Faulty.MF A) (m : M A) : Prop :=
  ∀ p, Faulty.quiet p →
    (mf p).1 = (m (Faulty.base p)).1
    ∧ Faulty.base (mf p).2 = (m (Faulty.base p)).2
    ∧ Faulty.quiet (mf p).2.




(** ** The run of [main], item by item *)

Definition fallbacks_dir : string := "public/images/fallbacks".

Definition start_line : string := "Starting download of fallback images..." +:+ nl.

Definition warning_line : string :=
  "⚠️  Some images failed to download. Please check the errors above.".

(** The world after the loop has dealt with one descriptor. *)
Definition after_item (d : descriptor) (w : world) : world :=
  add_stdout ""
    (download_image (url d) (local_path d)
       (add_stdout ("📥 " +:+ description d) w)).2.

(** The world after the loop has dealt with all of them, in order. *)
Fixpoint after_loop (images : list descriptor) (w : world) : world :=
  match images with
  | [] => w
  | d :: rest => after_loop rest (after_item d w)
  end.

(** Whether a call of [download_image] returns [True]. *)
Definition reports_success (url local_path : string) (w : world) : bool :=
  match (download_image url local_path w).1 with
  | Returned ok => ok
  | Raised _ => false
  end.

(** What each call of [download_image] in the loop returns. *)
Fixpoint outcomes (images : list descriptor) (w : world) : list bool :=
  match images with
  | [] => []
  | d :: rest =>
      reports_success (url d) (local_path d)
        (add_stdout ("📥 " +:+ description d) w)
      :: outcomes rest (after_item d w)
  end.

(** How many calls returned [True]. *)
Definition successes (oks : list bool) : nat :=
  List.length (List.filter id oks).

(** The world in which the loop starts, when the directory could be made. *)
Definition startup (w : world) : result unit * world :=
  match ensure_directory fallbacks_dir w with
  | (Returned _, w0) => (Returned tt, add_stdout start_line w0)
  | (Raised e, w0) => (Raised e, w0)
  end.

(** Every descriptor was tried and every call reported success. *)
Definition all_downloads_succeed (images : list descriptor) (w : world) : bool :=
  match startup w with
  | (Returned _, w1) => forallb id (outcomes images w1)
  | (Raised _, _) => false
  end.


(** The five lines [main] prints when nothing failed. *)
Definition success_lines (w : world) : world :=
  add_stdout "3. Commit changes to git"
    (add_stdout "2. Test the application to ensure images load correctly"
       (add_stdout "1. Update config files to use local image paths"
          (add_stdout (nl +:+ "Next steps:")
             (add_stdout "✅ All images downloaded successfully!" w)))).

(** ** Directories *)

(** The directories [os.makedirs] goes through below [done]: one for each
    name of [todo], each inside the one before. *)
Fixpoint levels_from (done : path) (todo : list string) : list path :=
  match todo with
  | [] => []
  | c :: rest => (done ++ [c]) :: levels_from (done ++ [c]) rest
  end.

Definition levels (p : path) : list path := levels_from [] p.

(** A directory is there when every level down to it is a directory. *)
Definition directory_exists (t : gmap path node) (p : path) : bool :=
  match p with
  | [] => false
  | _ => forallb (λ q, match t !! q with Some Dir => true | _ => false end) (levels p)
  end.

(** A level can be passed when it is a directory already, or is missing
    and may be created. *)
Definition creatable (w : world) (q : path) : bool :=
  match fs w !! q with
  | Some Dir => true
  | Some (File _) => false
  | None => negb (deny_create w q)
  end.

(** Creation is possible: the path is not empty, no level is taken by a
    file, and no missing level is denied. *)
Definition can_make (w : world) (p : path) : bool :=
  match p with
  | [] => false
  | _ => forallb (creatable w) (levels p)
  end.

(** ** What a run does to the tree *)

(** Downloads neither make nor remove directories, and a file stays a
    file. *)
Definition evolves (w w' : world) : Prop :=
  same_oracles w w'
  ∧ (∀ q, fs w !! q = Some Dir ↔ fs w' !! q = Some Dir)
  ∧ (∀ q c, fs w !! q = Some (File c) → ∃ c', fs w' !! q = Some (File c')).

(** The file a descriptor is stored in. *)
Definition dest (d : descriptor) : path := split_path (local_path d).

(** C4 as the specification words it, at one world: after a run of [main]
    in which every download succeeded, every descriptor's file is there and
    is not empty. *)
Definition files_nonempty_after_success (w : world) : Prop :=
  all_downloads_succeed images_to_download w = true →
  ∀ d, d ∈ images_to_download →
    ∃ c, fs (main w).2 !! dest d = Some (File c) ∧ c ≠ [].

(** C2 as the specification words it, at one call: when the request
    fails or comes back with a status that is not a success, the call
    returns [False]. *)
Definition failure_gives_false (url local_path : string)
    (p : Faulty.platform) : Prop :=
  no_success url (Faulty.base p) = true →
  ∃ p', Faulty.download_image url local_path p = (Returned false, p').


(** C10 as worded, at one call: when the request fails or comes back with
    a status that is not a success, the file at [local_path] is what it
    was. *)
Definition no_success_keeps_file (url local_path : string) (w : world) : Prop :=
  no_success url w = true →
  fs (download_image url local_path w).2 !! split_path local_path
  = fs w !! split_path local_path.

(** The requests of a second run are answered without an error status, by
    bodies that arrive whole and fit. *)
Definition second_run_answered (images : list descriptor) (w : world) : Prop :=
  ∀ i d, images !! i = Some d →
    ∃ r, net w (List.length (requests w) + List.length images + i)%nat (url d)
         = Responded r
         ∧ is_error_status (status_code r) = false
         ∧ fits (body_chunks r) (stream_fault r) 0 (quota w (dest d)) = true.

(** C8 as worded, at one world: after a run of [main] that succeeded, a
    second run whose downloads are answered replaces the files and does
    not fail. *)
Definition second_run_replaces_files (w : world) : Prop :=
  exit_code (main w).1 = 0%Z →
  second_run_answered images_to_download w →
  exit_code (main (main w).2).1 = 0%Z.

(** * Worlds for the examples *)

(** A plain body is handed out in whole slices of the size asked for. *)
Definition plain_cuts (body : list byte) (n : nat) : list nat :=
  replicate (List.length body) (Nat.pred n).

Definition ok_response (body : list byte) : response :=
  {| status_code := 200; reason := "OK"; raw := body;
     cuts := plain_cuts body; stream_fault := None |}.

Definition not_found : response :=
  {| status_code := 404; reason := "Not Found"; raw := [];
     cuts := λ _, []; stream_fault := None |}.

(** An empty working directory, nothing printed, nothing requested. *)
Definition fresh_world (n : nat → string → get_outcome) : world :=
  {| net := n; deny_create := λ _, false; deny_rewrite := λ _, false;
     quota := λ _, None;
     fs := ∅; stdout := []; requests := [] |}.

Definition jpeg : list byte := [xff; xd8; xff; xe0].

Definition png : list byte := [x89; x50; x4e; x47; x0d; x0a].

Definition w_all_ok : world := fresh_world (λ _ _, Responded (ok_response jpeg)).

Definition fallbacks_tree : gmap path node :=
  <[ ["public"; "images"; "fallbacks"] := Dir ]>
  (<[ ["public"; "images"] := Dir ]> (<[ ["public"] := Dir ]> ∅)).

(** The destination directory is there; the network is [n]. *)
Definition ready_world (n : nat → string → get_outcome) : world :=
  {| net := n; deny_create := λ _, false; deny_rewrite := λ _, false;
     quota := λ _, None;
     fs := fallbacks_tree; stdout := []; requests := [] |}.

Definition hero_url : string :=
  "https://images.unsplash.com/photo-1489515217757-5fd1be406fef?auto=format&fit=crop&w=1200&q=80".

Definition hero_path : string := "public/images/fallbacks/hero-fallback.jpg".

Definition hero : descriptor :=
  {| url := hero_url; local_path := hero_path;
     description := "Fallback hero image" |}.

(** A body of one full chunk and eight bytes more. *)
Definition long_body : list byte := replicate 8200 x2a.

Definition w_404 : world := ready_world (λ _ _, Responded not_found).

Definition w_offline : world :=
  ready_world (λ _ _, Unreachable "Max retries exceeded").

(** The directory is there, but a file may not grow beyond two bytes. *)
Definition w_disk_full : world :=
  {| net := λ _ _, Responded (ok_response jpeg);
     deny_create := λ _, false; deny_rewrite := λ _, false;
     quota := λ _, Some 2%nat;
     fs := fallbacks_tree; stdout := []; requests := [] |}.

(** The connection breaks before the first chunk of the body is out. *)
Definition w_broken_stream : world :=
  ready_world (λ _ _, Responded {| status_code := 200; reason := "OK";
                                   raw := jpeg; cuts := plain_cuts jpeg;
                                   stream_fault := Some 0%nat |}).

(** A body that arrives in three transfer chunks of 100 bytes. *)
Definition chunked_response : response :=
  {| status_code := 200; reason := "OK"; raw := replicate 300 x2a;
     cuts := λ _, [99; 99; 99]%nat; stream_fault := None |}.

(** The long body, and the connection breaks after its first piece. *)
Definition w_long_broken : world :=
  ready_world (λ _ _, Responded {| status_code := 200; reason := "OK";
                                   raw := long_body;
                                   cuts := plain_cuts long_body;
                                   stream_fault := Some 1%nat |}).

(** A response with a status that is neither a success nor one
    [raise_for_status] rejects. *)
Definition not_modified : response :=
  {| status_code := 304; reason := "Not Modified"; raw := [];
     cuts := λ _, []; stream_fault := None |}.

(** An old picture is in the file and the server answers 304. *)
Definition w_old_file_304 : world :=
  set_fs (insert (split_path hero_path) (File jpeg))
    (ready_world (λ _ _, Responded not_modified)).

(** The files the process creates are read-only (its umask takes the
    write permission away); the network is that of [w_two_runs]. *)
Definition w_read_only : world :=
  {| net := λ k _, if (k <? 5)%nat then Responded (ok_response jpeg)
                   else Responded (ok_response png);
     deny_create := λ _, false; deny_rewrite := λ _, true;
     quota := λ _, None;
     fs := ∅; stdout := []; requests := [] |}.

(** An old picture is in the way and the server is down. *)
Definition w_old_file_404 : world :=
  set_fs (insert (split_path hero_path) (File jpeg)) w_404.

(** The second request of the process is answered with 404, every other
    one with a picture. *)
Definition second_fails (k : nat) (_ : string) : get_outcome :=
  match k with
  | 1%nat => Responded not_found
  | _ => Responded (ok_response jpeg)
  end.

Definition w_second_404 : world := fresh_world second_fails.

Definition two_images : list descriptor := [
  {| url := "https://example.org/one.jpg";
     local_path := "public/images/fallbacks/one.jpg";
     description := "First image" |};
  {| url := "https://example.org/two.jpg";
     local_path := "public/images/fallbacks/two.jpg";
     description := "Second image" |}
].

Definition w_first_only : world := ready_world second_fails.

(** Every server answers 200 with an empty body. *)
Definition w_empty_bodies : world :=
  fresh_world (λ _ _, Responded (ok_response [])).

(** The first five requests are answered with one picture, the later ones
    with another. *)
Definition w_two_runs : world :=
  fresh_world (λ k _, if (k <? 5)%nat then Responded (ok_response jpeg)
                      else Responded (ok_response png)).

(** A file named [public] stands where the first directory should be. *)
Definition w_public_is_file : world :=
  set_fs (insert ["public"] (File [])) w_all_ok.

(** [public] may be created, [public/images] may not. *)
Definition w_images_denied : world :=
  {| net := λ _ _, Responded (ok_response jpeg);
     deny_create := λ p, bool_decide (p = ["public"; "images"]);
     deny_rewrite := λ _, false;
     quota := λ _, None;
     fs := ∅; stdout := []; requests := [] |}.

(** A file of the user's lies beside [public]. *)
Definition w_with_readme : world :=
  set_fs (insert ["README.md"] (File jpeg)) w_second_404.

(** An old hero picture is in place before a run whose third request, the
    one for the hero picture, is answered with 404. *)
Definition third_fails (k : nat) (_ : string) : get_outcome :=
  match k with
  | 2%nat => Responded not_found
  | _ => Responded (ok_response jpeg)
  end.

Definition w_old_hero_third_404 : world :=
  set_fs (insert (split_path hero_path) (File png)) (ready_world third_fails).

Definition first_image : descriptor :=
  {| url := "https://example.org/one.jpg";
     local_path := "public/images/fallbacks/one.jpg";
     description := "First image" |}.

(** * More vocabulary *)

(** The four lines the loop of [main] prints for one descriptor; [line] is
    the one [download_image] ends with. *)
Definition item_lines (d : descriptor) (line : string) : list string :=
  ["📥 " +:+ description d; "Downloading: " +:+ url d; line; ""].

(** The last line of a call of [download_image] on [d]: the saved line or
    a failure line. *)
Definition result_line (d : descriptor) (line : string) : Prop :=
  line = saved_line (local_path d) ∨ ∃ e, line = failure_line (url d) e.

(** The lines [main] ends with when nothing failed. *)
Definition success_block : list string :=
  ["✅ All images downloaded successfully!"; nl +:+ "Next steps:";
   "1. Update config files to use local image paths";
   "2. Test the application to ensure images load correctly";
   "3. Commit changes to git"].

(** The [k]-th request of the process, sent to [url], fails or is answered
    with a status [raise_for_status] rejects. *)
Definition request_fails (w : world) (k : nat) (url : string) : bool :=
  match net w k url with
  | Unreachable _ => true
  | Responded r => is_error_status (status_code r)
  end.

(** * Properties *)

(** ** Reasoning about the monad and the oracles *)

Lemma bind_eq {A B : Type} (m : M A) (f : A → M B) (w : world) :
  (m ≫= f) w =
  match m w with
  | (Returned a, w') => f a w'
  | (Raised e, w') => (Raised e, w')
  end.
Proof. reflexivity. Qed.

Lemma same_oracles_refl w : same_oracles w w.
Proof. by repeat split. Qed.

Lemma same_oracles_trans w1 w2 w3 :
  same_oracles w1 w2 → same_oracles w2 w3 → same_oracles w1 w3.
Proof. intros (?&?&?&?) (?&?&?&?). repeat split; congruence. Qed.

Lemma forallb_agree {A : Type} (f g : A → bool) (l : list A) :
  (∀ x, x ∈ l → f x = g x) → forallb f l = forallb g l.
Proof.
  induction l as [|x l IH]; intros H; cbn; [done|].
  rewrite (H x) by apply list_elem_of_here.
  rewrite IH; [done|]. intros y Hy. apply H. by apply list_elem_of_further.
Qed.

Lemma forallb_elem_of {A : Type} (f : A → bool) (l : list A) :
  forallb f l = true ↔ ∀ x, x ∈ l → f x = true.
Proof.
  rewrite forallb_forall. split; intros H x Hx; apply H; by apply list_elem_of_In.
Qed.


(** ** Cutting a body into chunks *)

Lemma cut_by_concat sizes data : concat (cut_by sizes data) = data.
Proof.
  revert data. induction sizes as [|n sizes IH]; intros [|b data]; try done.
  - cbn. by rewrite app_nil_r.
  - cbn [cut_by concat]. rewrite IH. apply take_drop.
Qed.

(** No piece is empty. *)
Lemma cut_by_nonempty sizes data c : c ∈ cut_by sizes data → c ≠ [].
Proof.
  revert data. induction sizes as [|n sizes IH]; intros [|b data]; cbn [cut_by].
  - by intros ?%elem_of_nil.
  - by intros ->%list_elem_of_singleton.
  - by intros ?%elem_of_nil.
  - intros [->|H]%elem_of_cons; [done|]. by eapply IH.
Qed.

Lemma body_chunks_concat r : concat (body_chunks r) = raw r.
Proof. apply cut_by_concat. Qed.

(** The long body arrives as one full chunk and one of eight bytes. *)
Example long_body_chunks :
  map List.length (body_chunks (ok_response long_body)) = [8192; 8]%nat.
Proof. vm_compute. reflexivity. Qed.

(** ** The write loop *)

Lemma write_returned f chunk w w' :
  write f chunk w = (Returned tt, w') →
  w' = set_fs (insert f (File (file_at w f ++ chunk))) w.
Proof.
  unfold write, file_at. destruct (quota w f) as [limit|].
  - case_decide; intros [= <-]; reflexivity.
  - intros [= <-]; reflexivity.
Qed.

Lemma write_raised f chunk w w' e :
  write f chunk w = (Raised e, w') →
  w' = w ∧ isinstance_Exception e = true.
Proof.
  unfold write. destruct (quota w f) as [limit|]; [case_decide|];
    intros [= <- <-]; done.
Qed.

Lemma set_fs_insert_id w f n :
  fs w !! f = Some n → set_fs (insert f n) w = w.
Proof.
  intros H. destruct w; unfold set_fs; cbn in *. f_equal. by apply insert_id.
Qed.

Lemma set_fs_insert_twice w f n1 n2 :
  set_fs (insert f n2) (set_fs (insert f n1) w) = set_fs (insert f n2) w.
Proof. unfold set_fs; cbn. by rewrite insert_insert_eq. Qed.

(** The loop raises nothing but [Exception]s, and what it has written
    before stays in the file. *)
Lemma for_each_write_raised f chunks fault w w' e :
  for_each (deliver chunks fault) (write f) w = (Raised e, w') →
  isinstance_Exception e = true ∧ same_oracles w w' ∧
  stdout w' = stdout w ∧ requests w' = requests w ∧
  ∀ q, q ≠ f → fs w' !! q = fs w !! q.
Proof.
  revert fault w. induction chunks as [|c cs IH]; intros fault w.
  - destruct fault as [[|n]|]; cbn [deliver for_each]; try discriminate.
    intros [= <- <-]. split; [done|]. split; [apply same_oracles_refl|done].
  - assert (∀ flt, (write f c ≫= λ _, for_each (deliver cs flt) (write f)) w
                   = (Raised e, w') →
                   isinstance_Exception e = true ∧ same_oracles w w' ∧
                   stdout w' = stdout w ∧ requests w' = requests w ∧
                   ∀ q, q ≠ f → fs w' !! q = fs w !! q) as Hstep.
    { intros flt H. rewrite bind_eq in H.
      destruct (write f c w) as [[[]|e1] w1] eqn:Hw.
      - apply write_returned in Hw. subst w1.
        apply IH in H as (He & Ho & Hs & Hr & Hq). split; [done|].
        split; [exact Ho|]. split; [done|]. split; [done|].
        intros q Hne. rewrite (Hq q Hne). cbn. by rewrite lookup_insert_ne.
      - injection H as <- <-. apply write_raised in Hw as [-> He].
        split; [done|]. split; [apply same_oracles_refl|done]. }
    destruct fault as [[|n]|]; cbn [deliver for_each].
    + intros [= <- <-]. split; [done|]. split; [apply same_oracles_refl|done].
    + apply Hstep.
    + apply Hstep.
Qed.

Lemma for_each_write_fits f chunks fault w old :
  fs w !! f = Some (File old) →
  fits chunks fault (List.length old) (quota w f) = true →
  for_each (deliver chunks fault) (write f) w
  = (Returned tt, set_fs (insert f (File (old ++ concat chunks))) w).
Proof.
  revert fault w old. induction chunks as [|c cs IH]; intros fault w old Hf Hfit.
  - assert (w = set_fs (insert f (File (old ++ concat []))) w) as Hid.
    { cbn. rewrite app_nil_r. by rewrite set_fs_insert_id. }
    destruct fault as [[|n]|]; cbn in Hfit; try discriminate;
      cbn [deliver for_each]; by rewrite <- Hid.
  - assert (∀ flt,
      match quota w f with
      | Some l => bool_decide (List.length old + List.length c ≤ l)%nat
      | None => true
      end && fits cs flt (List.length old + List.length c) (quota w f) = true →
      (write f c ≫= λ _, for_each (deliver cs flt) (write f)) w
      = (Returned tt, set_fs (insert f (File (old ++ concat (c :: cs)))) w)) as Hstep.
    { intros flt [Hq Hrest]%andb_true_iff. rewrite bind_eq.
      assert (write f c w = (Returned tt, set_fs (insert f (File (old ++ c))) w)) as ->.
      { unfold write. rewrite Hf. destruct (quota w f) as [l|]; [|done].
        apply bool_decide_eq_true in Hq. by rewrite decide_True. }
      rewrite (IH flt _ (old ++ c)).
      - rewrite set_fs_insert_twice. cbn. by rewrite app_assoc.
      - cbn. by rewrite lookup_insert_eq.
      - cbn. by rewrite length_app. }
    destruct fault as [[|n]|]; cbn in Hfit; try discriminate;
      cbn [deliver for_each]; by apply Hstep.
Qed.

Lemma for_each_write_not_fits f chunks fault w old :
  fs w !! f = Some (File old) →
  fits chunks fault (List.length old) (quota w f) = false →
  ∃ e w', for_each (deliver chunks fault) (write f) w = (Raised e, w').
Proof.
  revert fault w old. induction chunks as [|c cs IH]; intros fault w old Hf Hfit.
  - destruct fault as [[|n]|]; cbn in Hfit; try discriminate.
    cbn. by eexists _, _.
  - assert (∀ flt,
      match quota w f with
      | Some l => bool_decide (List.length old + List.length c ≤ l)%nat
      | None => true
      end && fits cs flt (List.length old + List.length c) (quota w f) = false →
      ∃ e w', (write f c ≫= λ _, for_each (deliver cs flt) (write f)) w
              = (Raised e, w')) as Hstep.
    { intros flt Hno. rewrite bind_eq. unfold write at 1. rewrite Hf.
      destruct (quota w f) as [l|] eqn:Hl.
      - case_decide as Hle.
        + rewrite bool_decide_eq_true_2 in Hno by done. cbn in Hno.
          apply (IH flt _ (old ++ c)).
          * cbn. by rewrite lookup_insert_eq.
          * cbn. by rewrite Hl, length_app.
        + by eexists _, _.
      - cbn in Hno. apply (IH flt _ (old ++ c)).
        + cbn. by rewrite lookup_insert_eq.
        + cbn. by rewrite Hl, length_app. }
    destruct fault as [[|n]|]; cbn in Hfit.
    + cbn. by eexists _, _.
    + cbn [deliver for_each]. by apply Hstep.
    + cbn [deliver for_each]. by apply Hstep.
Qed.

(** Whatever happens in the loop, the file stays a file. *)
Lemma for_each_write_file f chunks fault w old :
  fs w !! f = Some (File old) →
  ∃ c, fs (for_each (deliver chunks fault) (write f) w).2 !! f = Some (File c).
Proof.
  revert fault w old. induction chunks as [|c cs IH]; intros fault w old Hf.
  - destruct fault as [[|n]|]; cbn; by eexists.
  - assert (∀ flt, ∃ c',
      fs ((write f c ≫= λ _, for_each (deliver cs flt) (write f)) w).2 !! f
      = Some (File c')) as Hstep.
    { intros flt. rewrite bind_eq.
      destruct (write f c w) as [[[]|e] w1] eqn:Hw.
      - apply write_returned in Hw. subst w1. apply (IH _ _ (file_at w f ++ c)).
        cbn. by rewrite lookup_insert_eq.
      - apply write_raised in Hw as [-> _]. cbn. by eexists. }
    destruct fault as [[|n]|]; cbn [deliver for_each]; [cbn; by eexists|..];
      apply Hstep.
Qed.

Lemma for_each_write_frame f chunks fault w :
  let w' := (for_each (deliver chunks fault) (write f) w).2 in
  same_oracles w w' ∧ stdout w' = stdout w ∧ requests w' = requests w ∧
  ∀ q, q ≠ f → fs w' !! q = fs w !! q.
Proof.
  cbn zeta. revert fault w. induction chunks as [|c cs IH]; intros fault w.
  - destruct fault as [[|n]|]; cbn; (split; [apply same_oracles_refl|done]).
  - assert (∀ flt,
      let w' := ((write f c ≫= λ _, for_each (deliver cs flt) (write f)) w).2 in
      same_oracles w w' ∧ stdout w' = stdout w ∧ requests w' = requests w ∧
      ∀ q, q ≠ f → fs w' !! q = fs w !! q) as Hstep.
    { intros flt. cbn zeta. rewrite bind_eq.
      destruct (write f c w) as [[[]|e] w1] eqn:Hw.
      - apply write_returned in Hw. subst w1.
        destruct (IH flt (set_fs (insert f (File (file_at w f ++ c))) w))
          as (Ho & Hs & Hr & Hq).
        split; [exact Ho|]. split; [exact Hs|]. split; [exact Hr|].
        intros q Hne. rewrite (Hq q Hne). cbn. by rewrite lookup_insert_ne.
      - apply write_raised in Hw as [-> _]. cbn.
        split; [apply same_oracles_refl|done]. }
    destruct fault as [[|n]|]; cbn [deliver for_each].
    + cbn. split; [apply same_oracles_refl|done].
    + apply Hstep.
    + apply Hstep.
Qed.

(** ** [download_image], step by step *)

Lemma open_wb_can name w :
  can_open w (split_path name) = true →
  open_wb name w
  = (Returned (split_path name), set_fs (insert (split_path name) (File [])) w).
Proof.
  unfold open_wb, can_open. destruct (split_path name) as [|c p]; [done|].
  destruct (isdir _ _); [|done]. cbn.
  destruct (fs w !! (c :: p)) as [[|old]|]; try done.
  - by destruct (deny_rewrite w _).
  - by destruct (deny_create w _).
Qed.

Lemma openable_can_open w p : openable w p = true → can_open w p = true.
Proof.
  unfold openable, can_open, denied. destruct p as [|c p]; [done|].
  destruct (isdir _ _); [|done]. cbn.
  destruct (fs w !! (c :: p)) as [[|old]|]; try done.
  by intros [? _]%negb_true_iff%orb_false_iff%proj1%orb_false_iff
    || (destruct (deny_create w _); done).
Qed.

Lemma open_wb_cannot name w :
  can_open w (split_path name) = false →
  ∃ msg, open_wb name w = (Raised (OSError msg), w).
Proof.
  unfold open_wb, can_open. destruct (split_path name) as [|c p]; [by eexists|].
  destruct (isdir _ _).
  2:{ unfold parent_error. cbn [negb].
      destruct (fs w !! parent (c :: p)) as [[|old]|]; eexists; reflexivity. }
  cbn.
  destruct (fs w !! (c :: p)) as [[|old]|]; try (by eexists).
  - destruct (deny_rewrite w _); try done; by eexists.
  - destruct (deny_create w _); try done; by eexists.
Qed.

Lemma raise_for_status_ok url r w :
  is_error_status (status_code r) = false →
  raise_for_status url r w = (Returned tt, w).
Proof.
  unfold is_error_status, raise_for_status. intros H%bool_decide_eq_false.
  rewrite !bool_decide_eq_false_2 by lia. reflexivity.
Qed.

Lemma raise_for_status_error url r w :
  is_error_status (status_code r) = true →
  ∃ msg, raise_for_status url r w = (Raised (HTTPError msg), w).
Proof.
  unfold is_error_status, raise_for_status. intros H%bool_decide_eq_true.
  case_bool_decide; [by eexists|]. rewrite bool_decide_eq_true_2 by lia.
  by eexists.
Qed.

(** Everything the [with] block raises is an [Exception]. *)
Lemma store_raised local_path r w w' e :
  store local_path r w = (Raised e, w') →
  isinstance_Exception e = true ∧ same_oracles w w' ∧
  stdout w' = stdout w ∧ requests w' = requests w ∧
  ∀ q, q ≠ split_path local_path → fs w' !! q = fs w !! q.
Proof.
  unfold store, with_open_wb. rewrite bind_eq.
  destruct (can_open w (split_path local_path)) eqn:Hc.
  - rewrite (open_wb_can _ _ Hc). intros H.
    apply for_each_write_raised in H as (He & Ho & Hs & Hr & Hq).
    split; [done|]. split; [exact Ho|]. split; [done|]. split; [done|].
    intros q Hne. rewrite (Hq q Hne). cbn. by rewrite lookup_insert_ne.
  - destruct (open_wb_cannot _ _ Hc) as [msg ->]. intros [= <- <-].
    split; [done|]. split; [apply same_oracles_refl|done].
Qed.

(** The [with] block, decided. *)
Lemma store_decided local_path r w :
  let p := split_path local_path in
  if can_open w p && fits (body_chunks r) (stream_fault r) 0 (quota w p)
  then store local_path r w
       = (Returned tt, set_fs (insert p (File (concat (body_chunks r)))) w)
  else ∃ e w', store local_path r w = (Raised e, w').
Proof.
  intros p. unfold store, with_open_wb. rewrite bind_eq.
  destruct (can_open w p) eqn:Hc; cbn [andb].
  - rewrite (open_wb_can _ _ Hc). fold p.
    destruct (fits _ _ _ _) eqn:Hfit.
    + unfold iter_content. fold (body_chunks r).
      rewrite (for_each_write_fits _ _ _ _ []).
      * by rewrite set_fs_insert_twice.
      * cbn. by rewrite lookup_insert_eq.
      * exact Hfit.
    + unfold iter_content. fold (body_chunks r).
      apply (for_each_write_not_fits _ _ _ _ []).
      * cbn. by rewrite lookup_insert_eq.
      * exact Hfit.
  - destruct (open_wb_cannot _ _ Hc) as [msg ->]. by eexists _, _.
Qed.

Lemma store_frame local_path r w :
  let w' := (store local_path r w).2 in
  same_oracles w w' ∧ stdout w' = stdout w ∧ requests w' = requests w ∧
  ∀ q, q ≠ split_path local_path → fs w' !! q = fs w !! q.
Proof.
  cbn zeta. unfold store, with_open_wb. rewrite bind_eq.
  destruct (can_open w (split_path local_path)) eqn:Hc.
  - rewrite (open_wb_can _ _ Hc).
    destruct (for_each_write_frame (split_path local_path)
                (body_chunks r) (stream_fault r)
                (set_fs (insert (split_path local_path) (File [])) w))
      as (Ho & Hs & Hr & Hq).
    split; [exact Ho|]. split; [exact Hs|]. split; [exact Hr|].
    intros q Hne. etrans; [exact (Hq q Hne)|]. cbn. by rewrite lookup_insert_ne.
  - destruct (open_wb_cannot _ _ Hc) as [msg ->]. cbn.
    split; [apply same_oracles_refl|done].
Qed.

(** At the path itself: either nothing was opened, or the path could be
    opened and now holds a file. *)
Lemma store_at local_path r w :
  let p := split_path local_path in
  let w' := (store local_path r w).2 in
  (can_open w p = false ∧ fs w' = fs w)
  ∨ (can_open w p = true ∧ ∃ c, fs w' !! p = Some (File c)).
Proof.
  cbn zeta. unfold store, with_open_wb. rewrite bind_eq.
  destruct (can_open w (split_path local_path)) eqn:Hc.
  - right. split; [done|]. rewrite (open_wb_can _ _ Hc).
    apply (for_each_write_file _ _ _ _ []). cbn. by rewrite lookup_insert_eq.
  - left. split; [done|]. by destruct (open_wb_cannot _ _ Hc) as [msg ->].
Qed.

(** The three ways through [download_image]: the request fails, the status
    is refused, or the body is stored (or storing fails). *)
Lemma download_image_unreachable url local_path w msg :
  net w (List.length (requests w)) url = Unreachable msg →
  download_image url local_path w
  = (Returned false,
     add_stdout (failure_line url (RequestException msg)) (requested url w)).
Proof.
  intros H. unfold download_image, try_except_Exception, requests_get, print.
  unfold mbind, M_bind. cbn. rewrite H. reflexivity.
Qed.

Lemma download_image_error_status url local_path w r :
  net w (List.length (requests w)) url = Responded r →
  is_error_status (status_code r) = true →
  ∃ msg, download_image url local_path w
  = (Returned false,
     add_stdout (failure_line url (HTTPError msg)) (requested url w)).
Proof.
  intros H Hs. unfold download_image, try_except_Exception, requests_get, print.
  destruct (raise_for_status_error url r (requested url w) Hs) as [msg Hm].
  unfold requested in Hm. unfold mbind, M_bind. cbn. rewrite H, Hm. by exists msg.
Qed.

Lemma download_image_stored url local_path w r :
  net w (List.length (requests w)) url = Responded r →
  is_error_status (status_code r) = false →
  download_image url local_path w
  = match store local_path r (requested url w) with
    | (Returned _, w') => (Returned true, add_stdout (saved_line local_path) w')
    | (Raised e, w') => (Returned false, add_stdout (failure_line url e) w')
    end.
Proof.
  intros H Hs.
  pose proof (raise_for_status_ok url r (requested url w) Hs) as Hm.
  destruct (store local_path r (requested url w)) as [[[]|e] w'] eqn:Hst.
  - unfold download_image, try_except_Exception, requests_get, print.
    unfold store, requested in *. unfold mbind, M_bind in *. cbn in *.
    rewrite H, Hm, Hst. reflexivity.
  - pose proof (store_raised _ _ _ _ _ Hst) as [He _].
    unfold download_image, try_except_Exception, requests_get, print.
    unfold store, requested in *. unfold mbind, M_bind in *. cbn in *.
    rewrite H, Hm, Hst, He. reflexivity.
Qed.

(** [download_image] always returns, and returns what [download_succeeds]
    predicts. *)
Lemma download_image_returns url local_path w :
  ∃ w', download_image url local_path w
        = (Returned (download_succeeds url local_path w), w').
Proof.
  unfold download_succeeds.
  destruct (net w (List.length (requests w)) url) as [msg|r] eqn:Hn.
  - rewrite (download_image_unreachable _ _ _ _ Hn). by eexists.
  - destruct (is_error_status (status_code r)) eqn:Hs.
    + destruct (download_image_error_status _ local_path _ _ Hn Hs) as [msg ->].
      by eexists.
    + rewrite (download_image_stored _ _ _ _ Hn Hs). cbn [negb andb].
      pose proof (store_decided local_path r (requested url w)) as Hst.
      cbn zeta in Hst.
      change (can_open (requested url w)) with (can_open w) in Hst.
      change (quota (requested url w)) with (quota w) in Hst.
      destruct (can_open w _ && fits _ _ _ _).
      * rewrite Hst. by eexists.
      * destruct Hst as (e & w' & ->). by eexists.
Qed.

Lemma download_image_cases url local_path w :
  (get_failed url w = true ∧
   ∃ e, isinstance_Exception e = true ∧
        download_image url local_path w
        = (Returned false, add_stdout (failure_line url e) (requested url w)))
  ∨ (get_failed url w = false ∧
     ∃ r, net w (List.length (requests w)) url = Responded r ∧
          download_image url local_path w
          = match store local_path r (requested url w) with
            | (Returned _, w') =>
                (Returned true, add_stdout (saved_line local_path) w')
            | (Raised e, w') =>
                (Returned false, add_stdout (failure_line url e) w')
            end).
Proof.
  unfold get_failed.
  destruct (net w (List.length (requests w)) url) as [msg|r] eqn:Hn.
  - left. split; [done|]. exists (RequestException msg). split; [done|].
    by apply download_image_unreachable.
  - destruct (is_error_status (status_code r)) eqn:Hs.
    + left. split; [done|].
      destruct (download_image_error_status _ local_path _ _ Hn Hs) as [msg ->].
      by exists (HTTPError msg).
    + right. split; [done|]. exists r. split; [done|].
      by apply download_image_stored.
Qed.

Lemma download_image_frame url local_path w :
  let w' := (download_image url local_path w).2 in
  same_oracles w w' ∧ requests w' = requests w ++ [url] ∧
  ∀ q, q ≠ split_path local_path → fs w' !! q = fs w !! q.
Proof.
  cbn zeta.
  destruct (download_image_cases url local_path w)
    as [(_ & e & _ & ->)|(_ & r & _ & ->)].
  - cbn. split; [by repeat split|done].
  - destruct (store_frame local_path r (requested url w)) as (Ho & Hs & Hr & Hq).
    destruct (store local_path r (requested url w)) as [[[]|e] w'];
      cbn in *; (split; [exact Ho|]); (split; [by rewrite Hr|exact Hq]).
Qed.

Lemma download_image_at url local_path w :
  let p := split_path local_path in
  let w' := (download_image url local_path w).2 in
  fs w' = fs w ∨ (can_open w p = true ∧ ∃ c, fs w' !! p = Some (File c)).
Proof.
  cbn zeta.
  destruct (download_image_cases url local_path w)
    as [(_ & e & _ & ->)|(_ & r & _ & ->)].
  - by left.
  - destruct (store_at local_path r (requested url w)) as [[_ H]|[Hc H]].
    + left. destruct (store local_path r (requested url w)) as [[[]|e] w'];
        exact H.
    + right. split; [exact Hc|].
      destruct (store local_path r (requested url w)) as [[[]|e] w']; exact H.
Qed.

(** A download that succeeds leaves the whole body, and only it, in the
    file. *)
Lemma download_image_success url local_path w :
  download_succeeds url local_path w = true →
  ∃ r, net w (List.length (requests w)) url = Responded r ∧
       is_error_status (status_code r) = false ∧
       download_image url local_path w
       = (Returned true,
          add_stdout (saved_line local_path)
            (set_fs (insert (split_path local_path) (File (raw r)))
               (requested url w))).
Proof.
  unfold download_succeeds.
  destruct (net w (List.length (requests w)) url) as [msg|r] eqn:Hn; [done|].
  intros [[Hs%negb_true_iff Hc]%andb_true_iff Hfit]%andb_true_iff.
  exists r. split; [done|]. split; [done|].
  rewrite (download_image_stored _ _ _ _ Hn Hs).
  pose proof (store_decided local_path r (requested url w)) as Hst.
  cbn zeta in Hst.
  change (can_open (requested url w)) with (can_open w) in Hst.
  change (quota (requested url w)) with (quota w) in Hst.
  rewrite Hc, Hfit in Hst. cbn [andb] in Hst.
  rewrite Hst, body_chunks_concat. reflexivity.
Qed.

Lemma reports_success_decided url local_path w :
  reports_success url local_path w = download_succeeds url local_path w.
Proof.
  unfold reports_success.
  by destruct (download_image_returns url local_path w) as [w' ->].
Qed.

(** ** Ordinary paths *)

Lemma ordinary_path_nonempty name :
  ordinary_path name = true → split_path name ≠ [].
Proof.
  unfold ordinary_path.
  intros [[_ H%negb_true_iff%bool_decide_eq_false]%andb_true_iff _]%andb_true_iff.
  exact H.
Qed.

(** ** The write loop, piece by piece *)






(** ** The two platforms *)

Lemma agrees_ret {A : Type} (a : A) : agrees (mret a) (mret a).
Proof. intros p Hq. split; [done|]. split; [done|exact Hq]. Qed.

Lemma agrees_bind {A B : Type} (mf : Faulty.MF A) (m : M A)
    (kf : A → Faulty.MF B) (k : A → M B) :
  agrees mf m → (∀ a, agrees (kf a) (k a)) → agrees (mf ≫= kf) (m ≫= k).
Proof.
  intros Hm Hk p Hq. destruct (Hm p Hq) as (Hr & Hb & Hq').
  unfold mbind, Faulty.MF_bind, M_bind.
  destruct (mf p) as [[a|e] p1]; destruct (m (Faulty.base p)) as [[a'|e'] w1];
    cbn [fst snd] in Hr, Hb, Hq'; try discriminate Hr.
  - injection Hr as <-. subst w1. exact (Hk a p1 Hq').
  - injection Hr as <-. subst w1. split; [done|]. split; [done|exact Hq'].
Qed.

Lemma agrees_op {A : Type} (m : M A) : agrees (Faulty.op m) m.
Proof.
  intros p [Hi Hp]. unfold Faulty.op, mbind, Faulty.MF_bind, Faulty.step.
  rewrite Hi. split; [done|]. split; [done|exact (conj Hi Hp)].
Qed.

Lemma agrees_print line : agrees (Faulty.print line) (print line).
Proof.
  intros p [Hi Hp].
  unfold Faulty.print, mbind, Faulty.MF_bind, Faulty.step, Faulty.put.
  rewrite Hi. cbn [Faulty.print_fault Faulty.count_step Faulty.prints].
  rewrite Hp. split; [done|]. split; [done|exact (conj Hi Hp)].
Qed.

Lemma agrees_try {A : Type} (mf : Faulty.MF A) (m : M A)
    (hf : exn → Faulty.MF A) (h : exn → M A) :
  agrees mf m → (∀ e, agrees (hf e) (h e)) →
  agrees (Faulty.try_except_Exception mf hf) (try_except_Exception m h).
Proof.
  intros Hm Hh p Hq. destruct (Hm p Hq) as (Hr & Hb & Hq').
  unfold Faulty.try_except_Exception, try_except_Exception.
  destruct (mf p) as [[a|e] p1]; destruct (m (Faulty.base p)) as [[a'|e'] w1];
    cbn [fst snd] in Hr, Hb, Hq'; try discriminate Hr.
  - injection Hr as <-. subst w1. split; [done|]. split; [done|exact Hq'].
  - injection Hr as <-. subst w1. destruct (isinstance_Exception e).
    + exact (Hh e p1 Hq').
    + split; [done|]. split; [done|exact Hq'].
Qed.

Lemma agrees_for_each {A : Type} (s : stream A)
    (bf : A → Faulty.MF unit) (b : A → M unit) :
  (∀ a, agrees (bf a) (b a)) → agrees (Faulty.for_each s bf) (for_each s b).
Proof.
  intros Hb. induction s as [|a rest IH|e]; cbn [Faulty.for_each for_each].
  - apply agrees_ret.
  - apply agrees_bind; [apply Hb|]. intros _. exact IH.
  - apply agrees_op.
Qed.

(** On a quiet platform the second translation of [download_image] does
    what the first does. *)
Lemma agrees_download_image url local_path :
  agrees (Faulty.download_image url local_path) (download_image url local_path).
Proof.
  unfold Faulty.download_image, download_image.
  apply agrees_try.
  - apply agrees_bind; [apply agrees_print|]. intros _.
    apply agrees_bind; [apply agrees_op|]. intros r.
    apply agrees_bind; [apply agrees_op|]. intros _.
    apply agrees_bind.
    { unfold Faulty.with_open_wb, with_open_wb.
      apply agrees_bind; [apply agrees_op|]. intros f.
      apply agrees_for_each. intros c. apply agrees_op. }
    intros _. apply agrees_bind; [apply agrees_print|]. intros _.
    apply agrees_ret.
  - intros e. apply agrees_bind; [apply agrees_print|]. intros _.
    apply agrees_ret.
Qed.

(** *** What can leave a computation *)
















(** ** [download_image]: the claims *)

Lemma download_image_rejected url local_path w r msg :
  net w (List.length (requests w)) url = Responded r →
  raise_for_status url r (requested url w)
  = (Raised (HTTPError msg), requested url w) →
  download_image url local_path w
  = (Returned false,
     add_stdout (failure_line url (HTTPError msg)) (requested url w)).
Proof.
  intros H Hm. unfold download_image, try_except_Exception, requests_get, print.
  unfold requested in Hm. unfold mbind, M_bind. cbn. rewrite H, Hm. reflexivity.
Qed.

(** C2 fails as worded, in two ways.  A status that is no success but none
    that [raise_for_status] rejects, 304 here, is taken for a success: the
    call returns [True].  And the failure line is printed outside the
    [try]: on a standard output that cannot encode the first character of
    that line, a 404 ends with the [UnicodeEncodeError] of [print] in
    place of [False]. *)
Lemma failure_gives_false_fails :
  (no_success hero_url w_old_file_304 = true
   ∧ (Faulty.download_image hero_url hero_path (Faulty.calm w_old_file_304)).1
     = Returned true
   ∧ ¬ failure_gives_false hero_url hero_path (Faulty.calm w_old_file_304))
  ∧ (no_success hero_url w_404 = true
     ∧ (Faulty.download_image hero_url hero_path (Faulty.ascii_stdout w_404)).1
       = Raised (UnicodeEncodeError "codec can't encode character")
     ∧ ¬ failure_gives_false hero_url hero_path (Faulty.ascii_stdout w_404)).
Proof.
  assert ((Faulty.download_image hero_url hero_path
             (Faulty.calm w_old_file_304)).1 = Returned true) as H1
    by (vm_compute; reflexivity).
  assert ((Faulty.download_image hero_url hero_path
             (Faulty.ascii_stdout w_404)).1
          = Raised (UnicodeEncodeError "codec can't encode character")) as H2
    by (vm_compute; reflexivity).
  split.
  - split; [reflexivity|]. split; [exact H1|].
    intros Hclaim. destruct (Hclaim eq_refl) as [p' Hp'].
    rewrite Hp' in H1. discriminate H1.
  - split; [reflexivity|]. split; [exact H2|].
    intros Hclaim. destruct (Hclaim eq_refl) as [p' Hp'].
    rewrite Hp' in H2. discriminate H2.
Qed.

(** C2, amended.  As long as every line can be printed and no interrupt
    arrives, [download_image] answers a failure of the network and a
    status that [raise_for_status] rejects (4xx, 5xx) with [False], after
    the two lines [Downloading: url] and [✗ Failed to download url: error],
    the error being the message of the network failure, or one that starts
    with the status code and [Client Error] or [Server Error].  Any other
    status counts as a success, 304 and the like included: the call
    returns [True] after the line [✓ Saved to: local_path], with the body
    in the file, when the file could be opened and written; when it could
    not, the call returns [False] after a failure line. *)
Theorem download_image_failure_indicator
    (url local_path : string) (p : Faulty.platform) :
  Faulty.quiet p →
  let w := Faulty.base p in
  let r := (Faulty.download_image url local_path p).1 in
  let w' := Faulty.base (Faulty.download_image url local_path p).2 in
  match net w (List.length (requests w)) url with
  | Unreachable msg =>
      r = Returned false
      ∧ stdout w'
        = stdout w ++ ["Downloading: " +:+ url;
                       "✗ Failed to download " +:+ url +:+ ": " +:+ msg]
  | Responded resp =>
      if bool_decide (400 ≤ status_code resp < 500)%Z then
        r = Returned false
        ∧ ∃ rest,
            stdout w'
            = stdout w ++ ["Downloading: " +:+ url;
                           "✗ Failed to download " +:+ url +:+ ": "
                           +:+ pretty (status_code resp) +:+ " Client Error: "
                           +:+ rest]
      else if bool_decide (500 ≤ status_code resp < 600)%Z then
        r = Returned false
        ∧ ∃ rest,
            stdout w'
            = stdout w ++ ["Downloading: " +:+ url;
                           "✗ Failed to download " +:+ url +:+ ": "
                           +:+ pretty (status_code resp) +:+ " Server Error: "
                           +:+ rest]
      else
        ordinary_path local_path = true →
        if can_open w (split_path local_path)
           && fits (body_chunks resp) (stream_fault resp) 0
                (quota w (split_path local_path))
        then r = Returned true
             ∧ stdout w'
               = stdout w ++ ["Downloading: " +:+ url;
                              "✓ Saved to: " +:+ local_path]
             ∧ fs w' !! split_path local_path = Some (File (raw resp))
        else r = Returned false
             ∧ ∃ msg,
                 stdout w'
                 = stdout w ++ ["Downloading: " +:+ url;
                                "✗ Failed to download " +:+ url +:+ ": " +:+ msg]
  end.
Proof.
  intros Hq. cbn zeta.
  destruct (agrees_download_image url local_path p Hq) as (-> & -> & _).
  set (w := Faulty.base p).
  destruct (net w (List.length (requests w)) url) as [msg|resp] eqn:Hn.
  - rewrite (download_image_unreachable _ _ _ _ Hn). cbn.
    by rewrite <- app_assoc.
  - case_bool_decide as Hc; [|case_bool_decide as Hs].
    + rewrite (download_image_rejected url local_path w resp
                 (pretty (status_code resp) +:+ " Client Error: " +:+ reason resp
                  +:+ " for url: " +:+ url) Hn).
      2:{ unfold raise_for_status. by rewrite bool_decide_eq_true_2. }
      split; [done|]. exists (reason resp +:+ " for url: " +:+ url). cbn.
      by rewrite <- app_assoc.
    + rewrite (download_image_rejected url local_path w resp
                 (pretty (status_code resp) +:+ " Server Error: " +:+ reason resp
                  +:+ " for url: " +:+ url) Hn).
      2:{ unfold raise_for_status.
          by rewrite bool_decide_eq_false_2, bool_decide_eq_true_2. }
      split; [done|]. exists (reason resp +:+ " for url: " +:+ url). cbn.
      by rewrite <- app_assoc.
    + intros _.
      assert (is_error_status (status_code resp) = false) as Hok.
      { unfold is_error_status. apply bool_decide_eq_false_2. lia. }
      destruct (can_open w _ && fits _ _ _ _) eqn:Hstore.
      * destruct (download_image_success url local_path w) as (r' & Hn' & _ & ->).
        { unfold download_succeeds. rewrite Hn, Hok. exact Hstore. }
        assert (r' = resp) as -> by congruence.
        split; [done|]. cbn. rewrite <- app_assoc, lookup_insert_eq. done.
      * rewrite (download_image_stored _ _ _ _ Hn Hok).
        pose proof (store_decided local_path resp (requested url w)) as Hst.
        pose proof (store_frame local_path resp (requested url w))
          as (_ & Hout & _).
        cbn zeta in Hst.
        change (can_open (requested url w)) with (can_open w) in Hst.
        change (quota (requested url w)) with (quota w) in Hst.
        rewrite Hstore in Hst. destruct Hst as (e & w1 & Hst).
        rewrite Hst in Hout |- *. cbn [fst snd] in Hout |- *.
        split; [done|]. exists (str e). cbn. rewrite Hout. cbn.
        by rewrite <- app_assoc.
Qed.

Lemma download_image_failure_indicator_witness :
  Faulty.quiet (Faulty.calm w_404)
  ∧ let w := Faulty.base (Faulty.calm w_404) in
    let r := (Faulty.download_image hero_url hero_path (Faulty.calm w_404)).1 in
    let w' := Faulty.base
                (Faulty.download_image hero_url hero_path (Faulty.calm w_404)).2 in
    match net w (List.length (requests w)) hero_url with
    | Unreachable msg =>
        r = Returned false
        ∧ stdout w'
          = stdout w ++ ["Downloading: " +:+ hero_url;
                         "✗ Failed to download " +:+ hero_url +:+ ": " +:+ msg]
    | Responded resp =>
        if bool_decide (400 ≤ status_code resp < 500)%Z then
          r = Returned false
          ∧ ∃ rest,
              stdout w'
              = stdout w ++ ["Downloading: " +:+ hero_url;
                             "✗ Failed to download " +:+ hero_url +:+ ": "
                             +:+ pretty (status_code resp) +:+ " Client Error: "
                             +:+ rest]
        else if bool_decide (500 ≤ status_code resp < 600)%Z then
          r = Returned false
          ∧ ∃ rest,
              stdout w'
              = stdout w ++ ["Downloading: " +:+ hero_url;
                             "✗ Failed to download " +:+ hero_url +:+ ": "
                             +:+ pretty (status_code resp) +:+ " Server Error: "
                             +:+ rest]
        else
          ordinary_path hero_path = true →
          if can_open w (split_path hero_path)
             && fits (body_chunks resp) (stream_fault resp) 0
                  (quota w (split_path hero_path))
          then r = Returned true
               ∧ stdout w'
                 = stdout w ++ ["Downloading: " +:+ hero_url;
                                "✓ Saved to: " +:+ hero_path]
               ∧ fs w' !! split_path hero_path = Some (File (raw resp))
          else r = Returned false
               ∧ ∃ msg,
                   stdout w'
                   = stdout w ++ ["Downloading: " +:+ hero_url;
                                  "✗ Failed to download " +:+ hero_url
                                  +:+ ": " +:+ msg]
    end.
Proof.
  assert (Faulty.quiet (Faulty.calm w_404)) as Hq by (split; intros; reflexivity).
  split; [exact Hq|].
  exact (download_image_failure_indicator hero_url hero_path (Faulty.calm w_404) Hq).
Defined.

(** A 404 is logged and answered with [False]. *)
Example download_image_404 :
  download_image hero_url hero_path w_404
  = (Returned false,
     add_stdout ("✗ Failed to download " +:+ hero_url
                 +:+ ": 404 Client Error: Not Found for url: " +:+ hero_url)
       (requested hero_url w_404)).
Proof. reflexivity. Qed.

(** An unreachable server is logged and answered with [False]. *)
Example download_image_offline :
  download_image hero_url hero_path w_offline
  = (Returned false,
     add_stdout ("✗ Failed to download " +:+ hero_url +:+ ": Max retries exceeded")
       (add_request hero_url (add_stdout ("Downloading: " +:+ hero_url) w_offline))).
Proof. reflexivity. Qed.

(** A 304 is stored as if it were a picture. *)
Example download_image_304 :
  (download_image hero_url hero_path w_old_file_304).1 = Returned true
  ∧ stdout (download_image hero_url hero_path w_old_file_304).2
    = ["Downloading: " +:+ hero_url; "✓ Saved to: " +:+ hero_path].
Proof. vm_compute. done. Qed.




(** The directory is missing: [open] fails, the call returns [False]. *)
Example download_image_open_fails :
  download_image hero_url hero_path w_all_ok
  = (Returned false,
     add_stdout ("✗ Failed to download " +:+ hero_url
                 +:+ ": [Errno 2] No such file or directory: '"
                 +:+ hero_path +:+ "'")
       (requested hero_url w_all_ok)).
Proof. reflexivity. Qed.

(** The device is full after two bytes: [write] fails, the call returns
    [False]. *)
Example download_image_write_fails :
  (download_image hero_url hero_path w_disk_full).1 = Returned false
  ∧ last (stdout (download_image hero_url hero_path w_disk_full).2)
    = Some ("✗ Failed to download " +:+ hero_url
            +:+ ": [Errno 28] No space left on device").
Proof. vm_compute. done. Qed.

(** The connection breaks before the first chunk: the call returns
    [False]. *)
Example download_image_stream_breaks :
  (download_image hero_url hero_path w_broken_stream).1 = Returned false
  ∧ last (stdout (download_image hero_url hero_path w_broken_stream).2)
    = Some ("✗ Failed to download " +:+ hero_url
            +:+ ": Connection broken: IncompleteRead").
Proof. vm_compute. done. Qed.

(** With the standard output closed, even a download that would have
    worked ends with an exception: the first [print] fails inside the
    [try], the handler's fails outside. *)
Example download_image_closed_stdout :
  (Faulty.download_image hero_url hero_path
     (Faulty.closed_stdout (ready_world (λ _ _, Responded (ok_response jpeg))))).1
  = Raised (ValueError "I/O operation on closed file.").
Proof. vm_compute. reflexivity. Qed.

(** C10 fails as worded: a status that is no success but none that
    [raise_for_status] rejects does not stop the call before [open].  The
    server answers 304 with an empty body, and the old picture is replaced
    by an empty file. *)
Lemma no_success_keeps_file_fails :
  no_success hero_url w_old_file_304 = true
  ∧ fs w_old_file_304 !! split_path hero_path = Some (File jpeg)
  ∧ fs (download_image hero_url hero_path w_old_file_304).2
      !! split_path hero_path = Some (File [])
  ∧ ¬ no_success_keeps_file hero_url hero_path w_old_file_304.
Proof.
  assert (fs w_old_file_304 !! split_path hero_path = Some (File jpeg)) as H0
    by (vm_compute; reflexivity).
  assert (fs (download_image hero_url hero_path w_old_file_304).2
            !! split_path hero_path = Some (File [])) as H1
    by (vm_compute; reflexivity).
  split; [reflexivity|]. split; [exact H0|]. split; [exact H1|].
  intros Hclaim. specialize (Hclaim eq_refl).
  rewrite H0, H1 in Hclaim. discriminate Hclaim.
Qed.

(** C10, amended.  When the request fails, or is answered with a status
    that [raise_for_status] rejects (4xx, 5xx), [download_image] leaves
    the whole tree as it was: the file at [local_path] is opened only
    after [raise_for_status] has passed.  (Every other status passes.) *)
Theorem download_image_failed_get_keeps_files (url local_path : string) (w : world) :
  get_failed url w = true →
  fs (download_image url local_path w).2 = fs w.
Proof.
  intros H.
  destruct (download_image_cases url local_path w)
    as [(_ & e & _ & ->)|(Hno & _)]; [done|congruence].
Qed.

Lemma download_image_failed_get_keeps_files_witness :
  get_failed hero_url w_old_file_404 = true
  ∧ fs (download_image hero_url hero_path w_old_file_404).2 = fs w_old_file_404.
Proof.
  assert (get_failed hero_url w_old_file_404 = true) as H by reflexivity.
  split; [exact H|].
  exact (download_image_failed_get_keeps_files hero_url hero_path w_old_file_404 H).
Defined.



(** The connection breaks after the first piece of the long body: the
    file is left with that piece, 8192 bytes, and the call returns
    [False]. *)
Example download_image_partial_file :
  (download_image hero_url hero_path w_long_broken).1 = Returned false
  ∧ fs (download_image hero_url hero_path w_long_broken).2 !! split_path hero_path
    = Some (File (take 8192 long_body)).
Proof. vm_compute. done. Qed.

(** A body that arrives in transfer chunks of 100 bytes is handed out, and
    written, in pieces of 100 bytes. *)
Example chunked_body_pieces :
  map List.length (body_chunks chunked_response) = [100; 100; 100]%nat
  ∧ map List.length
      (stored_items (iter_content 8192 chunked_response) 0 None)
    = [100; 100; 100]%nat.
Proof. vm_compute. done. Qed.

(** ** [ensure_directory] *)

Lemma mkdir_exist_ok_level done c w :
  isdir (fs w) done = true →
  mkdir_exist_ok (done ++ [c]) w
  = match fs w !! (done ++ [c]) with
    | Some Dir => (Returned tt, w)
    | Some (File _) =>
        (Raised (OSError (errno_msg "[Errno 17] File exists" (done ++ [c]))), w)
    | None =>
        if deny_create w (done ++ [c]) then
          (Raised (OSError (errno_msg "[Errno 13] Permission denied" (done ++ [c]))), w)
        else (Returned tt, set_fs (insert (done ++ [c]) Dir) w)
    end.
Proof.
  intros Hd. unfold mkdir_exist_ok, mkdir.
  assert (parent (done ++ [c]) = done) as Hp by apply removelast_last.
  rewrite Hp, Hd. cbn [negb].
  destruct (done ++ [c]) as [|x p] eqn:Hx.
  { exfalso. by eapply app_cons_not_nil. }
  unfold isdir. destruct (fs w !! (x :: p)) as [[|old]|] eqn:E;
    cbn; rewrite ?E; try done.
  destruct (deny_create w (x :: p)); cbn; rewrite ?E; done.
Qed.

Lemma levels_from_longer done todo q :
  q ∈ levels_from done todo → (List.length done < List.length q)%nat.
Proof.
  revert done. induction todo as [|c rest IH]; intros done; cbn.
  - by intros ?%elem_of_nil.
  - intros [->|H%IH]%elem_of_cons.
    + rewrite length_app. cbn. lia.
    + rewrite length_app in H. cbn in H. lia.
Qed.

(** What [makedirs_from] does: it passes the levels in order, creating
    the missing ones, and stops at the first it cannot pass. *)
Lemma makedirs_from_spec done todo w :
  isdir (fs w) done = true →
  let w' := (makedirs_from done todo w).2 in
  same_oracles w w' ∧ stdout w' = stdout w ∧ requests w' = requests w
  ∧ (∀ q n, fs w !! q = Some n → fs w' !! q = Some n)
  ∧ (∀ q, q ∉ levels_from done todo → fs w' !! q = fs w !! q)
  ∧ (∀ q n, fs w' !! q = Some n → fs w !! q = None → n = Dir)
  ∧ if forallb (creatable w) (levels_from done todo)
    then (makedirs_from done todo w).1 = Returned tt
         ∧ ∀ q, q ∈ levels_from done todo → fs w' !! q = Some Dir
    else ∃ msg, (makedirs_from done todo w).1 = Raised (OSError msg).
Proof.
  cbn zeta. revert done w. induction todo as [|c rest IH]; intros done w Hd.
  - cbn. split; [apply same_oracles_refl|]. do 4 (split; [done|]).
    split; [intros; congruence|]. split; [done|]. by intros q ?%elem_of_nil.
  - cbn [makedirs_from levels_from forallb]. rewrite bind_eq.
    rewrite (mkdir_exist_ok_level _ _ _ Hd). unfold creatable at 1.
    set (p := done ++ [c]).
    assert (p ∉ levels_from p rest) as Hfresh.
    { intros H%levels_from_longer. lia. }
    destruct (fs w !! p) as [[|old]|] eqn:Hp.
    + assert (isdir (fs w) p = true) as Hd'.
      { unfold isdir. rewrite Hp. by destruct p. }
      destruct (IH p w Hd') as (Ho & Hs & Hr & Hkeep & Hout & Hnew & Hres).
      do 4 (split; [done|]).
      split. { intros q Hq. apply Hout. by apply not_elem_of_cons in Hq as [_ ?]. }
      split; [done|]. cbn [andb].
      destruct (forallb (creatable w) (levels_from p rest)); [|done].
      destruct Hres as [Hret Hall]. split; [done|].
      intros q [->|Hq]%elem_of_cons; [by apply Hkeep|by apply Hall].
    + cbn. split; [apply same_oracles_refl|]. do 4 (split; [done|]).
      split; [intros; congruence|]. by eexists.
    + destruct (deny_create w p) eqn:Hden; cbn [negb andb].
      * cbn. split; [apply same_oracles_refl|]. do 4 (split; [done|]).
        split; [intros; congruence|]. by eexists.
      * set (w1 := set_fs (insert p Dir) w).
        assert (isdir (fs w1) p = true) as Hd'.
        { unfold isdir. cbn. rewrite lookup_insert_eq. by destruct p. }
        destruct (IH p w1 Hd') as (Ho & Hs & Hr & Hkeep & Hout & Hnew & Hres).
        split; [exact Ho|]. split; [exact Hs|]. split; [exact Hr|].
        split.
        { intros q n Hq. apply Hkeep. cbn.
          rewrite lookup_insert_ne; [done|]. congruence. }
        split.
        { intros q [Hne Hq]%not_elem_of_cons. rewrite (Hout q Hq). cbn.
          by rewrite lookup_insert_ne. }
        split.
        { intros q n Hq Hnone. destruct (decide (q = p)) as [->|Hne].
          - assert (fs (makedirs_from p rest w1).2 !! p = Some Dir) as Hpd.
            { apply Hkeep. cbn. by rewrite lookup_insert_eq. }
            congruence.
          - apply (Hnew q n Hq). cbn. by rewrite lookup_insert_ne. }
        assert (forallb (creatable w1) (levels_from p rest)
                = forallb (creatable w) (levels_from p rest)) as Hsame.
        { apply forallb_agree. intros q Hq. unfold creatable. cbn.
          rewrite lookup_insert_ne; [done|]. by intros ->. }
        rewrite Hsame in Hres.
        destruct (forallb (creatable w) (levels_from p rest)); [|done].
        destruct Hres as [Hret Hall]. split; [done|].
        intros q [->|Hq]%elem_of_cons; [|by apply Hall].
        apply Hkeep. cbn. by rewrite lookup_insert_eq.
Qed.

Lemma isdir_kept t t' d :
  (∀ q n, t !! q = Some n → t' !! q = Some n) →
  isdir t d = true → isdir t' d = true.
Proof.
  intros Hkeep. unfold isdir. destruct d as [|x d]; [done|].
  destruct (t !! (x :: d)) as [[|old]|] eqn:E; try done.
  by rewrite (Hkeep _ _ E).
Qed.

(** Passing levels that are all there changes nothing. *)
Lemma makedirs_from_existing done todo w :
  isdir (fs w) done = true →
  (∀ q, q ∈ levels_from done todo → fs w !! q = Some Dir) →
  makedirs_from done todo w = (Returned tt, w).
Proof.
  revert done. induction todo as [|c rest IH]; intros pre Hd Hall; [done|].
  cbn [makedirs_from]. rewrite bind_eq, (mkdir_exist_ok_level _ _ _ Hd).
  assert (fs w !! (pre ++ [c]) = Some Dir) as Hp.
  { apply Hall. cbn. apply list_elem_of_here. }
  rewrite Hp. apply IH.
  - unfold isdir. rewrite Hp. by destruct (pre ++ [c]).
  - intros q Hq. apply Hall. cbn. by apply list_elem_of_further.
Qed.

(** A second pass ends as the first did, and changes nothing more. *)
Lemma makedirs_from_twice done todo w :
  isdir (fs w) done = true →
  makedirs_from done todo (makedirs_from done todo w).2
  = makedirs_from done todo w.
Proof.
  revert done w. induction todo as [|c rest IH]; intros pre w Hd; [done|].
  cbn [makedirs_from]. rewrite (bind_eq _ _ w).
  rewrite (mkdir_exist_ok_level _ _ _ Hd).
  set (p := pre ++ [c]).
  assert (∀ w0, isdir (fs w0) p = true → fs w0 !! p = Some Dir →
            isdir (fs w0) pre = true →
            (mkdir_exist_ok p ≫= λ _, makedirs_from p rest)
              (makedirs_from p rest w0).2
            = makedirs_from p rest w0) as Hagain.
  { intros w0 Hp0 Hp Hd0.
    destruct (makedirs_from_spec p rest w0 Hp0) as (_ & _ & _ & Hkeep & _).
    rewrite bind_eq. unfold p at 1. rewrite mkdir_exist_ok_level.
    - fold p. rewrite (Hkeep _ _ Hp). by apply IH.
    - by apply (isdir_kept (fs w0)). }
  destruct (fs w !! p) as [[|old]|] eqn:Hp.
  - apply Hagain; [|done..]. unfold isdir. rewrite Hp. by destruct p.
  - cbn [snd]. rewrite bind_eq. unfold p. rewrite mkdir_exist_ok_level by done.
    fold p. by rewrite Hp.
  - destruct (deny_create w p) eqn:Hden.
    + cbn [snd]. rewrite bind_eq. unfold p.
      rewrite mkdir_exist_ok_level by done. fold p. by rewrite Hp, Hden.
    + apply Hagain.
      * unfold isdir. cbn. rewrite lookup_insert_eq. by destruct p.
      * cbn. by rewrite lookup_insert_eq.
      * apply (isdir_kept (fs w)); [|done]. intros q n Hq. cbn.
        rewrite lookup_insert_ne; [done|]. congruence.
Qed.

Lemma ensure_directory_spec path w :
  let p := split_path path in
  let w' := (ensure_directory path w).2 in
  same_oracles w w' ∧ stdout w' = stdout w ∧ requests w' = requests w
  ∧ (∀ q n, fs w !! q = Some n → fs w' !! q = Some n)
  ∧ (∀ q, q ∉ levels p → fs w' !! q = fs w !! q)
  ∧ (∀ q n, fs w' !! q = Some n → fs w !! q = None → n = Dir)
  ∧ if can_make w p
    then (ensure_directory path w).1 = Returned tt
         ∧ directory_exists (fs w') p = true
    else ∃ msg, (ensure_directory path w).1 = Raised (OSError msg).
Proof.
  cbn zeta. unfold ensure_directory, makedirs, can_make, directory_exists.
  destruct (split_path path) as [|c p] eqn:Hsp.
  - cbn. split; [apply same_oracles_refl|]. do 4 (split; [done|]).
    split; [intros; congruence|]. by eexists.
  - destruct (makedirs_from_spec [] (c :: p) w eq_refl)
      as (Ho & Hs & Hr & Hkeep & Hout & Hnew & Hres).
    do 6 (split; [done|]). fold (levels (c :: p)) in Hres.
    destruct (forallb (creatable w) (levels (c :: p))); [|done].
    destruct Hres as [Hret Hall]. split; [done|].
    apply forallb_elem_of. intros q Hq. by rewrite (Hall q Hq).
Qed.

Lemma ensure_directory_existing path w :
  directory_exists (fs w) (split_path path) = true →
  ensure_directory path w = (Returned tt, w).
Proof.
  unfold ensure_directory, makedirs, directory_exists.
  destruct (split_path path) as [|c p]; [done|].
  intros Hall. apply makedirs_from_existing; [done|].
  intros q Hq. rewrite forallb_elem_of in Hall. specialize (Hall q Hq).
  by destruct (fs w !! q) as [[|old]|].
Qed.

Lemma ensure_directory_twice path w :
  ensure_directory path (ensure_directory path w).2 = ensure_directory path w.
Proof.
  unfold ensure_directory, makedirs.
  destruct (split_path path) as [|c p]; [done|].
  by apply makedirs_from_twice.
Qed.

(** C7.  [ensure_directory] is idempotent, for every ordinary path.  When
    the directory is there already the call returns and changes nothing; a
    second call ends as the first did and changes nothing more, so two
    calls in a row are one call.  When creation is possible (no level of
    the path is taken by a file, and no missing level is one the process
    may not create) the call returns, the directory and all its parents
    are there afterwards, and whatever was there before still is.
    Otherwise, and only then, it raises an [OSError]. *)
Theorem ensure_directory_idempotent (path : string) (w : world) :
  ordinary_path path = true →
  let p := split_path path in
  let w' := (ensure_directory path w).2 in
  (directory_exists (fs w) p = true → ensure_directory path w = (Returned tt, w))
  ∧ ensure_directory path w' = ensure_directory path w
  ∧ (ensure_directory path;; ensure_directory path) w = ensure_directory path w
  ∧ if can_make w p
    then (ensure_directory path w).1 = Returned tt
         ∧ directory_exists (fs w') p = true
         ∧ ∀ q n, fs w !! q = Some n → fs w' !! q = Some n
    else ∃ msg, (ensure_directory path w).1 = Raised (OSError msg).
Proof.
  intros _. cbn zeta. split; [apply ensure_directory_existing|].
  split; [apply ensure_directory_twice|]. split.
  - rewrite bind_eq. pose proof (ensure_directory_twice path w) as H.
    destruct (ensure_directory path w) as [[[]|e] w1]; [exact H|done].
  - destruct (ensure_directory_spec path w) as (_ & _ & _ & Hkeep & _ & _ & H).
    destruct (can_make w (split_path path)); [|done].
    destruct H as [? ?]. by repeat split.
Qed.

Lemma ensure_directory_idempotent_witness :
  ordinary_path fallbacks_dir = true
  ∧ let p := split_path fallbacks_dir in
    let w' := (ensure_directory fallbacks_dir w_all_ok).2 in
    (directory_exists (fs w_all_ok) p = true →
     ensure_directory fallbacks_dir w_all_ok = (Returned tt, w_all_ok))
    ∧ ensure_directory fallbacks_dir w' = ensure_directory fallbacks_dir w_all_ok
    ∧ (ensure_directory fallbacks_dir;; ensure_directory fallbacks_dir) w_all_ok
      = ensure_directory fallbacks_dir w_all_ok
    ∧ if can_make w_all_ok p
      then (ensure_directory fallbacks_dir w_all_ok).1 = Returned tt
           ∧ directory_exists (fs w') p = true
           ∧ ∀ q n, fs w_all_ok !! q = Some n → fs w' !! q = Some n
      else ∃ msg, (ensure_directory fallbacks_dir w_all_ok).1 = Raised (OSError msg).
Proof.
  assert (ordinary_path fallbacks_dir = true) as Hp by (vm_compute; reflexivity).
  split; [exact Hp|].
  exact (ensure_directory_idempotent fallbacks_dir w_all_ok Hp).
Defined.

(** A second call on the tree the first one made changes nothing. *)
Example ensure_directory_again :
  let w' := (ensure_directory fallbacks_dir w_all_ok).2 in
  directory_exists (fs w') (split_path fallbacks_dir) = true
  ∧ (ensure_directory fallbacks_dir w').1 = Returned tt
  ∧ fs (ensure_directory fallbacks_dir w').2 !! ["public"; "images"; "fallbacks"]
    = Some Dir.
Proof. vm_compute. done. Qed.

(** On an empty tree the three levels are created. *)
Example ensure_directory_creates_parents :
  let w' := (ensure_directory fallbacks_dir (fresh_world (λ _ _, Unreachable ""))).2 in
  fs w' !! ["public"] = Some Dir
  ∧ fs w' !! ["public"; "images"] = Some Dir
  ∧ fs w' !! ["public"; "images"; "fallbacks"] = Some Dir.
Proof. vm_compute. done. Qed.

(** A file in the place of the directory makes creation impossible. *)
Example ensure_directory_blocked :
  (ensure_directory fallbacks_dir
     (set_fs (insert ["public"; "images"; "fallbacks"] (File [])) w_404)).1
  = Raised (OSError "[Errno 17] File exists: 'public/images/fallbacks'").
Proof. vm_compute. reflexivity. Qed.

(** ** The loop of [main] *)

Lemma successes_cons ok oks :
  successes (ok :: oks) = ((if ok then 1 else 0) + successes oks)%nat.
Proof. by destruct ok. Qed.

Lemma successes_le oks : (successes oks ≤ List.length oks)%nat.
Proof.
  induction oks as [|ok oks IH]; [done|].
  rewrite successes_cons. destruct ok; cbn; lia.
Qed.

Lemma successes_all oks :
  successes oks = List.length oks ↔ forallb id oks = true.
Proof.
  induction oks as [|ok oks IH]; [done|].
  rewrite successes_cons. pose proof (successes_le oks).
  destruct ok; cbn.
  - rewrite <- IH. lia.
  - split; [lia|done].
Qed.

Lemma outcomes_length images w :
  List.length (outcomes images w) = List.length images.
Proof.
  revert w. induction images as [|d rest IH]; intros w; cbn; [done|].
  by rewrite IH.
Qed.

Lemma download_loop_eq images success_count w :
  download_loop images success_count w
  = (Returned (success_count + successes (outcomes images w))%nat,
     after_loop images w).
Proof.
  revert success_count w. induction images as [|d rest IH]; intros n w.
  - cbn. unfold successes. cbn. by rewrite Nat.add_0_r.
  - cbn [download_loop outcomes after_loop]. rewrite successes_cons.
    destruct (download_image_returns (url d) (local_path d)
                (add_stdout ("📥 " +:+ description d) w)) as [w' Hd].
    unfold reports_success, after_item, mbind, M_bind, print.
    rewrite Hd. cbv beta iota. rewrite IH. cbn [fst snd].
    destruct (download_succeeds _ _ _); do 2 f_equal; lia.
Qed.

Lemma main_with_crashed images w e w0 :
  ensure_directory fallbacks_dir w = (Raised e, w0) →
  main_with images w = (Raised e, w0).
Proof.
  intros H. unfold fallbacks_dir in H. unfold main_with, mbind, M_bind.
  by rewrite H.
Qed.

Lemma main_with_started images w w0 :
  ensure_directory fallbacks_dir w = (Returned tt, w0) →
  main_with images w
  = let w1 := add_stdout start_line w0 in
    let n := successes (outcomes images w1) in
    let w2 := add_stdout (summary n (List.length images)) (after_loop images w1) in
    if decide (n = List.length images) then (Returned tt, success_lines w2)
    else (Raised (SystemExit 1), add_stdout warning_line w2).
Proof.
  intros H. unfold fallbacks_dir in H. unfold main_with, mbind, M_bind, print.
  rewrite H. cbv beta iota zeta.
  fold start_line. rewrite download_loop_eq. cbn [Nat.add].
  case_decide; reflexivity.
Qed.

Lemma after_item_requests d w :
  requests (after_item d w) = requests w ++ [url d].
Proof.
  unfold after_item. cbn.
  by destruct (download_image_frame (url d) (local_path d)
                 (add_stdout ("📥 " +:+ description d) w)) as (_ & -> & _).
Qed.

Lemma after_loop_requests images w :
  requests (after_loop images w) = requests w ++ map url images.
Proof.
  revert w. induction images as [|d rest IH]; intros w; cbn.
  - by rewrite app_nil_r.
  - by rewrite IH, after_item_requests, <- app_assoc.
Qed.

Lemma startup_returned w w0 :
  ensure_directory fallbacks_dir w = (Returned tt, w0) →
  startup w = (Returned tt, add_stdout start_line w0).
Proof. intros H. unfold startup. by rewrite H. Qed.

Lemma startup_raised w e w0 :
  ensure_directory fallbacks_dir w = (Raised e, w0) →
  startup w = (Raised e, w0) ∧ ∃ msg, e = OSError msg.
Proof.
  intros H. unfold startup. rewrite H. split; [done|].
  destruct (ensure_directory_spec fallbacks_dir w) as (_ & _ & _ & _ & _ & _ & Hc).
  rewrite H in Hc. destruct (can_make w _).
  - by destruct Hc.
  - destruct Hc as [msg [= ->]]. by exists msg.
Qed.

(** ** [main]: exit status, order of the requests, summary *)




(** Five requests go out although the second is answered with 404. *)
Example main_goes_on_after_failure :
  requests (main w_second_404).2 = map url images_to_download
  ∧ outcomes images_to_download (startup w_second_404).2
    = [true; false; true; true; true].
Proof. vm_compute. done. Qed.

(** C5.  When the directory is there, the output of [main] has the
    summary line [Download complete: s/t images downloaded successfully]
    where [s] is the number of calls of [download_image] that returned
    [True] and [t] the length of the list; when all calls returned [True]
    the two are equal and the exit status is 0. *)
Theorem main_summary (images : list descriptor) (w : world) :
  (ensure_directory fallbacks_dir w).1 = Returned tt →
  let oks := outcomes images (startup w).2 in
  let w' := (main_with images w).2 in
  (∃ out rest, stdout w'
               = out ++ summary (successes oks) (List.length images) :: rest)
  ∧ summary (successes oks) (List.length images)
    = "Download complete: " +:+ pretty (successes oks) +:+ "/"
      +:+ pretty (List.length images) +:+ " images downloaded successfully"
  ∧ List.length oks = List.length images
  ∧ (forallb id oks = true →
     successes oks = List.length images
     ∧ exit_code (main_with images w).1 = 0%Z).
Proof.
  intros He. cbn zeta.
  destruct (ensure_directory fallbacks_dir w) as [[[]|e] w0] eqn:He'; [|done].
  rewrite (startup_returned _ _ He'), (main_with_started _ _ _ He'). cbn zeta.
  cbn [snd]. set (w1 := add_stdout start_line w0). split.
  { exists (stdout (after_loop images w1)). case_decide; cbn.
    - eexists. by rewrite <- !app_assoc.
    - eexists. by rewrite <- !app_assoc. }
  split; [done|]. split; [apply outcomes_length|].
  intros Hall. pose proof (successes_all (outcomes images w1)) as Hs.
  rewrite outcomes_length in Hs. apply Hs in Hall.
  split; [done|]. by rewrite decide_True.
Qed.

Lemma main_summary_witness :
  (ensure_directory fallbacks_dir w_first_only).1 = Returned tt
  ∧ ∃ out rest, stdout (main_with two_images w_first_only).2
                = out ++ summary (successes (outcomes two_images
                                               (startup w_first_only).2))
                           (List.length two_images) :: rest.
Proof.
  assert ((ensure_directory fallbacks_dir w_first_only).1 = Returned tt) as H
    by (vm_compute; reflexivity).
  split; [exact H|].
  exact (proj1 (main_summary two_images w_first_only H)).
Defined.

(** Two descriptors, the first answered with a picture and the second with
    404: one file is written, one failure is logged, the summary reads 1/2
    and the exit status is 1. *)
Example main_one_of_two :
  let r := (main_with two_images w_first_only).1 in
  let w' := (main_with two_images w_first_only).2 in
  exit_code r = 1%Z
  ∧ drop 9 (stdout w')
    = ["Download complete: 1/2 images downloaded successfully"; warning_line]
  ∧ fs w' !! split_path "public/images/fallbacks/one.jpg" = Some (File jpeg)
  ∧ fs w' !! split_path "public/images/fallbacks/two.jpg" = None
  ∧ stdout w' !! 7%nat
    = Some ("✗ Failed to download https://example.org/two.jpg: "
            +:+ "404 Client Error: Not Found for url: https://example.org/two.jpg").
Proof. vm_compute. done. Qed.

(** All five succeed: the summary reads 5/5 and the exit status is 0. *)
Example main_five_of_five :
  exit_code (main w_all_ok).1 = 0%Z
  ∧ stdout (main w_all_ok).2 !! 21%nat
    = Some "Download complete: 5/5 images downloaded successfully".
Proof. vm_compute. done. Qed.

(** ** What a run does to the tree *)

Lemma evolves_refl w : evolves w w.
Proof. split; [apply same_oracles_refl|]. split; [done|]. by eexists. Qed.

Lemma evolves_trans w1 w2 w3 :
  evolves w1 w2 → evolves w2 w3 → evolves w1 w3.
Proof.
  intros (Ho & Hd & Hf) (Ho' & Hd' & Hf'). split; [by eapply same_oracles_trans|].
  split.
  - intros q. by rewrite Hd, Hd'.
  - intros q c [c' Hc]%Hf. by apply Hf' in Hc.
Qed.

Lemma isdir_evolves w w' q :
  evolves w w' → isdir (fs w') q = isdir (fs w) q.
Proof.
  intros (_ & Hd & Hf). unfold isdir. destruct q as [|x q]; [done|].
  destruct (fs w !! (x :: q)) as [[|c]|] eqn:E.
  - apply Hd in E. by rewrite E.
  - apply Hf in E as [c' ->]. done.
  - destruct (fs w' !! (x :: q)) as [[|c]|] eqn:E'; try done.
    apply Hd in E'. congruence.
Qed.

Lemma openable_evolves w w' p :
  evolves w w' → openable w p = true → openable w' p = true.
Proof.
  intros Hev. pose proof Hev as ((_ & Hdc & Hdr & _) & Hd & Hf).
  unfold openable, denied. destruct p as [|x p]; [done|].
  rewrite (isdir_evolves _ _ _ Hev), Hdc, Hdr.
  intros [H1 H2]%andb_true_iff. rewrite H1. cbn [andb].
  destruct (fs w !! (x :: p)) as [[|c]|] eqn:E; [done| |].
  - apply Hf in E as [c' ->]. done.
  - destruct (fs w' !! (x :: p)) as [[|c]|] eqn:E'.
    + apply Hd in E'. congruence.
    + by apply negb_true_iff, orb_false_iff in H2 as [_ ->].
    + done.
Qed.

Lemma openable_add_stdout line w p :
  openable (add_stdout line w) p = openable w p.
Proof. reflexivity. Qed.

Lemma can_open_isdir w p :
  can_open w p = true → isdir (fs w) (parent p) = true.
Proof.
  unfold can_open. destruct p as [|x p]; [done|].
  by intros [? _]%andb_true_iff.
Qed.

Lemma directory_exists_evolves w w' p :
  evolves w w' → directory_exists (fs w) p = true →
  directory_exists (fs w') p = true.
Proof.
  intros (_ & Hd & _). unfold directory_exists. destruct p as [|x p]; [done|].
  rewrite !forallb_elem_of. intros H q Hq. specialize (H q Hq).
  destruct (fs w !! q) as [[|c]|] eqn:E; try done.
  apply Hd in E. by rewrite E.
Qed.

Lemma download_image_evolves url local_path w :
  evolves w (download_image url local_path w).2.
Proof.
  destruct (download_image_frame url local_path w) as (Ho & _ & Hq).
  split; [exact Ho|].
  destruct (download_image_at url local_path w) as [Hsame|[Hc [c Hp]]].
  { rewrite Hsame. split; [done|]. by eexists. }
  assert (fs w !! split_path local_path ≠ Some Dir) as Hnd.
  { intros E. unfold can_open in Hc. rewrite E in Hc.
    destruct (split_path local_path); [done|].
    by rewrite andb_false_r in Hc. }
  split.
  - intros q. destruct (decide (q = split_path local_path)) as [->|Hne].
    + rewrite Hp. split; [done|discriminate].
    + by rewrite (Hq q Hne).
  - intros q c0 H0. destruct (decide (q = split_path local_path)) as [->|Hne].
    + by eexists.
    + rewrite (Hq q Hne). by eexists.
Qed.

Lemma after_item_evolves d w : evolves w (after_item d w).
Proof.
  unfold after_item.
  pose proof (download_image_evolves (url d) (local_path d)
                (add_stdout ("📥 " +:+ description d) w)) as H.
  exact H.
Qed.

Lemma after_loop_evolves images w : evolves w (after_loop images w).
Proof.
  revert w. induction images as [|d rest IH]; intros w; cbn.
  - apply evolves_refl.
  - eapply evolves_trans; [apply after_item_evolves|apply IH].
Qed.

Lemma after_item_frame d w q :
  q ≠ dest d → fs (after_item d w) !! q = fs w !! q.
Proof.
  intros Hne. unfold after_item.
  destruct (download_image_frame (url d) (local_path d)
              (add_stdout ("📥 " +:+ description d) w)) as (_ & _ & Hq).
  exact (Hq q Hne).
Qed.

Lemma after_loop_frame images w q :
  q ∉ map dest images → fs (after_loop images w) !! q = fs w !! q.
Proof.
  revert w. induction images as [|d rest IH]; intros w; cbn; [done|].
  intros [Hne Hq]%not_elem_of_cons. rewrite (IH _ Hq).
  by apply after_item_frame.
Qed.

(** An item that succeeds leaves the body of its response in its file. *)
Lemma after_item_success d w :
  reports_success (url d) (local_path d) (add_stdout ("📥 " +:+ description d) w)
  = true →
  can_open w (dest d) = true
  ∧ ∃ r, net w (List.length (requests w)) (url d) = Responded r
         ∧ fs (after_item d w) !! dest d = Some (File (raw r)).
Proof.
  rewrite reports_success_decided. intros Hok.
  destruct (download_image_success _ _ _ Hok) as (r & Hn & _ & Heq).
  split.
  - unfold download_succeeds in Hok. cbn in Hok. cbn in Hn. rewrite Hn in Hok.
    by apply andb_true_iff in Hok as [[_ ?]%andb_true_iff _].
  - exists r. split; [exact Hn|]. unfold after_item. rewrite Heq. cbn.
    by rewrite lookup_insert_eq.
Qed.

(** After a loop in which every call succeeded, every file holds the body
    of the response to its own request, provided no two descriptors share
    a file. *)
Lemma after_loop_files images w :
  NoDup (map dest images) →
  forallb id (outcomes images w) = true →
  ∀ i d, images !! i = Some d →
    isdir (fs (after_loop images w)) (parent (dest d)) = true
    ∧ ∃ r, net w (List.length (requests w) + i)%nat (url d) = Responded r
           ∧ fs (after_loop images w) !! dest d = Some (File (raw r)).
Proof.
  revert w. induction images as [|d0 rest IH]; intros w Hnd Hall i d Hi; [done|].
  cbn in Hnd. apply NoDup_cons in Hnd as [Hfresh Hnd].
  cbn [outcomes forallb] in Hall. apply andb_true_iff in Hall as [H0 Hrest].
  destruct i as [|i]; cbn in Hi.
  - injection Hi as ->. destruct (after_item_success _ _ H0) as (Hc & r & Hn & Hf).
    cbn [after_loop]. split.
    + rewrite (isdir_evolves _ _ _ (after_loop_evolves rest (after_item d w))).
      rewrite (isdir_evolves _ _ _ (after_item_evolves d w)).
      by apply can_open_isdir.
    + exists r. rewrite Nat.add_0_r. split; [done|].
      by rewrite after_loop_frame.
  - destruct (IH (after_item d0 w) Hnd Hrest i d Hi) as (Hc & r & Hn & Hf).
    cbn [after_loop]. split; [done|]. exists r. split; [|done].
    destruct (after_item_evolves d0 w) as ((Hnet & _) & _).
    rewrite Hnet, after_item_requests, length_app in Hn. cbn in Hn.
    by replace (List.length (requests w) + S i)%nat
      with (List.length (requests w) + 1 + i)%nat by lia.
Qed.

(** A run that ends with status 0 made the directory and saw every call
    succeed; its tree is the one the loop left. *)
Lemma main_with_exit_zero images w :
  exit_code (main_with images w).1 = 0%Z →
  ∃ w0, ensure_directory fallbacks_dir w = (Returned tt, w0)
        ∧ forallb id (outcomes images (add_stdout start_line w0)) = true
        ∧ fs (main_with images w).2
          = fs (after_loop images (add_stdout start_line w0))
        ∧ requests (main_with images w).2 = requests w ++ map url images
        ∧ evolves w0 (main_with images w).2.
Proof.
  destruct (ensure_directory_spec fallbacks_dir w) as (_ & _ & Hreq & _).
  destruct (ensure_directory fallbacks_dir w) as [[[]|e] w0] eqn:He.
  - rewrite (main_with_started _ _ _ He). cbn zeta.
    set (w1 := add_stdout start_line w0).
    pose proof (successes_all (outcomes images w1)) as Hall.
    rewrite outcomes_length in Hall. cbn in Hreq.
    case_decide as Hn; [|discriminate]. intros _. exists w0.
    split; [done|]. split; [by apply Hall|]. split; [done|]. split.
    + cbn. by rewrite after_loop_requests, <- Hreq.
    + exact (after_loop_evolves images w1).
  - destruct (startup_raised _ _ _ He) as [_ [msg ->]].
    by rewrite (main_with_crashed _ _ _ _ He).
Qed.

Lemma main_with_files images w :
  NoDup (map dest images) →
  exit_code (main_with images w).1 = 0%Z →
  ∀ i d, images !! i = Some d →
    isdir (fs (main_with images w).2) (parent (dest d)) = true
    ∧ ∃ r, net w (List.length (requests w) + i)%nat (url d) = Responded r
           ∧ fs (main_with images w).2 !! dest d = Some (File (raw r)).
Proof.
  intros Hnd (w0 & He & Hall & Hfs & _ & _)%main_with_exit_zero i d Hi.
  destruct (ensure_directory_spec fallbacks_dir w) as ((Hnet & _) & _ & Hreq & _).
  rewrite He in Hnet, Hreq. cbn in Hnet, Hreq.
  destruct (after_loop_files _ _ Hnd Hall i d Hi) as (Hc & r & Hn & Hf).
  cbn in Hn. rewrite Hnet, Hreq in Hn.
  split; [by rewrite Hfs|]. exists r. by rewrite Hfs, Hf.
Qed.

(** ** The files after a successful run *)

(** C4 fails as worded: when the servers answer 200 with empty bodies,
    every download succeeds, the exit status is 0, and the files are
    empty. *)
Lemma files_nonempty_after_success_fails :
  all_downloads_succeed images_to_download w_empty_bodies = true
  ∧ exit_code (main w_empty_bodies).1 = 0%Z
  ∧ (∀ d, d ∈ images_to_download →
       fs (main w_empty_bodies).2 !! dest d = Some (File []))
  ∧ ¬ files_nonempty_after_success w_empty_bodies.
Proof.
  assert (all_downloads_succeed images_to_download w_empty_bodies = true) as Hall
    by (vm_compute; reflexivity).
  assert (∀ d, d ∈ images_to_download →
            fs (main w_empty_bodies).2 !! dest d = Some (File [])) as Hfiles.
  { intros d Hd. unfold images_to_download in Hd.
    repeat (apply elem_of_cons in Hd as [->|Hd]; [vm_compute; reflexivity|]).
    exfalso. exact (proj1 (elem_of_nil _) Hd). }
  split; [exact Hall|]. split; [vm_compute; reflexivity|]. split; [exact Hfiles|].
  intros Hclaim.
  destruct (Hclaim Hall _ (list_elem_of_here _ _)) as (c & Hc & Hne).
  rewrite Hfiles in Hc by apply list_elem_of_here.
  apply Hne. injection Hc as Hc. symmetry. exact Hc.
Qed.

(** C4, amended.  After a run that ends with status 0 (every download
    succeeded), the file of every descriptor is there and holds exactly
    the body of the response to that descriptor's request, the [i]-th of
    the run; so it is empty exactly when that body is.  No two descriptors
    of the list share a file. *)
Theorem successful_run_stores_bodies (images : list descriptor) (w : world) :
  NoDup (map dest images) →
  exit_code (main_with images w).1 = 0%Z →
  ∀ i d, images !! i = Some d →
    ∃ r, net w (List.length (requests w) + i)%nat (url d) = Responded r
         ∧ fs (main_with images w).2 !! dest d = Some (File (raw r))
         ∧ (raw r = [] ↔ fs (main_with images w).2 !! dest d = Some (File [])).
Proof.
  intros Hnd Hex i d Hi.
  destruct (main_with_files _ _ Hnd Hex i d Hi) as (_ & r & Hn & Hf).
  exists r. rewrite Hf. split; [done|]. split; [done|].
  split; [by intros ->|by intros [= ->]].
Qed.

Lemma successful_run_stores_bodies_witness :
  NoDup (map dest images_to_download)
  ∧ exit_code (main_with images_to_download w_all_ok).1 = 0%Z
  ∧ images_to_download !! 2%nat = Some hero
  ∧ ∃ r, net w_all_ok (List.length (requests w_all_ok) + 2)%nat (url hero)
         = Responded r
         ∧ fs (main_with images_to_download w_all_ok).2 !! dest hero
           = Some (File (raw r))
         ∧ (raw r = [] ↔ fs (main_with images_to_download w_all_ok).2 !! dest hero
                         = Some (File [])).
Proof.
  assert (NoDup (map dest images_to_download)) as Hnd.
  { apply (bool_decide_eq_true_1 (NoDup (map dest images_to_download))).
    vm_compute. reflexivity. }
  assert (exit_code (main_with images_to_download w_all_ok).1 = 0%Z) as Hex
    by (vm_compute; reflexivity).
  assert (images_to_download !! 2%nat = Some hero) as Hi by reflexivity.
  split; [exact Hnd|]. split; [exact Hex|]. split; [exact Hi|].
  exact (successful_run_stores_bodies images_to_download w_all_ok Hnd Hex
           2%nat hero Hi).
Defined.

(** ** Running again over the files of an earlier run *)

Lemma parent_ne (p : path) : p ≠ [] → parent p ≠ p.
Proof.
  intros Hne Heq. destruct (exists_last Hne) as (q & c & ->).
  unfold parent in Heq. rewrite removelast_last in Heq.
  apply (f_equal List.length) in Heq. rewrite length_app in Heq. cbn in Heq. lia.
Qed.

(** A loop in which every file can be opened, every request is answered
    without an error status and every body arrives and fits, sees every
    call succeed. *)
Lemma outcomes_all_true images w :
  (∀ i d, images !! i = Some d →
     openable w (dest d) = true
     ∧ ∃ r, net w (List.length (requests w) + i)%nat (url d) = Responded r
            ∧ is_error_status (status_code r) = false
            ∧ fits (body_chunks r) (stream_fault r) 0 (quota w (dest d)) = true) →
  forallb id (outcomes images w) = true.
Proof.
  revert w. induction images as [|d0 rest IH]; intros w H; [done|].
  cbn [outcomes forallb]. apply andb_true_iff. split.
  - destruct (H 0%nat d0 eq_refl) as (Hc%openable_can_open & r & Hn & Hs & Hfit).
    rewrite Nat.add_0_r in Hn. unfold id.
    rewrite reports_success_decided. unfold download_succeeds.
    cbn [net requests quota add_stdout]. rewrite Hn, Hs. cbn [negb andb].
    change (can_open (add_stdout ("📥 " +:+ description d0) w))
      with (can_open w).
    unfold dest in Hc, Hfit. by rewrite Hc, Hfit.
  - apply IH. intros i d Hi.
    destruct (H (S i) d Hi) as (Hc & r & Hn & Hs & Hfit).
    pose proof (after_item_evolves d0 w) as Hev.
    destruct Hev as ((Hnet & _ & _ & Hquota) & _).
    split; [by eapply openable_evolves; [apply after_item_evolves|]|].
    exists r. rewrite Hnet, Hquota, after_item_requests, length_app. cbn.
    split; [|done].
    by replace (List.length (requests w) + 1 + i)%nat
      with (List.length (requests w) + S i)%nat by lia.
Qed.

(** C8 fails as worded: a second run can fail over the files of the
    first.  The process creates its files read-only; the first run stores
    five pictures and ends with status 0; in the second run, whose
    requests are answered as well, every [open] is refused, the exit
    status is 1 and the file of the hero picture still holds the picture
    of the first run. *)
Lemma second_run_replaces_files_fails :
  exit_code (main w_read_only).1 = 0%Z
  ∧ fs (main w_read_only).2 !! split_path hero_path = Some (File jpeg)
  ∧ second_run_answered images_to_download w_read_only
  ∧ exit_code (main (main w_read_only).2).1 = 1%Z
  ∧ fs (main (main w_read_only).2).2 !! split_path hero_path = Some (File jpeg)
  ∧ ¬ second_run_replaces_files w_read_only.
Proof.
  assert (exit_code (main w_read_only).1 = 0%Z) as H1
    by (vm_compute; reflexivity).
  assert (second_run_answered images_to_download w_read_only) as Hans.
  { intros i d Hi.
    do 5 (destruct i as [|i];
          [injection Hi as <-; exists (ok_response png);
           split; [reflexivity|]; split; vm_compute; reflexivity|]).
    discriminate Hi. }
  assert (exit_code (main (main w_read_only).2).1 = 1%Z) as H2
    by (vm_compute; reflexivity).
  split; [exact H1|]. split; [vm_compute; reflexivity|].
  split; [exact Hans|]. split; [exact H2|]. split; [vm_compute; reflexivity|].
  intros Hclaim. specialize (Hclaim H1 Hans).
  rewrite Hclaim in H2. discriminate H2.
Qed.

(** C8, amended.  A file that is already at [local_path] is overwritten,
    not asked about, as long as the process may write to it.  For one
    call: over an existing file that lies in a directory and is not
    read-only, a request that is answered without an error status, by a
    body that arrives whole and fits, makes [download_image] return
    [True], and the file then holds that body, whatever it held.  For the
    script: after a run that ended with status 0, a second run over files
    the process may write to again, with its requests answered in the
    same way, ends with status 0 too, each file then holding the body
    received in the second run in place of that of the first. *)
Theorem download_image_overwrites :
  (∀ (url local_path : string) (w : world) (old : list byte) (r : response),
     ordinary_path local_path = true →
     fs w !! split_path local_path = Some (File old) →
     isdir (fs w) (parent (split_path local_path)) = true →
     deny_rewrite w (split_path local_path) = false →
     net w (List.length (requests w)) url = Responded r →
     is_error_status (status_code r) = false →
     fits (body_chunks r) (stream_fault r) 0 (quota w (split_path local_path))
     = true →
     (download_image url local_path w).1 = Returned true
     ∧ fs (download_image url local_path w).2 !! split_path local_path
       = Some (File (raw r)))
  ∧ (∀ (images : list descriptor) (w : world),
       NoDup (map dest images) →
       (∀ d, d ∈ images → ordinary_path (local_path d) = true) →
       exit_code (main_with images w).1 = 0%Z →
       (∀ d, d ∈ images → deny_rewrite w (dest d) = false) →
       second_run_answered images w →
       let w1 := (main_with images w).2 in
       exit_code (main_with images w1).1 = 0%Z
       ∧ ∀ i d, images !! i = Some d →
           ∃ r1 r2,
             net w (List.length (requests w) + i)%nat (url d) = Responded r1
             ∧ fs w1 !! dest d = Some (File (raw r1))
             ∧ net w (List.length (requests w) + List.length images + i)%nat
                 (url d) = Responded r2
             ∧ fs (main_with images w1).2 !! dest d = Some (File (raw r2))).
Proof.
  split.
  - intros url local_path w old r Hne%ordinary_path_nonempty Hf Hd Hrw Hn Hs Hfit.
    assert (download_succeeds url local_path w = true) as Hok.
    { unfold download_succeeds, can_open. rewrite Hn, Hs, Hfit, Hf, Hd, Hrw.
      by destruct (split_path local_path). }
    destruct (download_image_success _ _ _ Hok) as (r' & Hn' & _ & ->).
    assert (r' = r) as -> by congruence.
    split; [done|]. cbn. by rewrite lookup_insert_eq.
  - intros images w Hnd Hord Hex Hrw Hsecond. cbn zeta.
    set (w1 := (main_with images w).2).
    destruct (main_with_exit_zero _ _ Hex) as (w0 & He & _ & _ & Hreq & Hev).
    fold w1 in Hreq, Hev.
    assert (same_oracles w w1) as (Hnet & _ & Hdr & Hquota).
    { destruct (ensure_directory_spec fallbacks_dir w) as (Ho & _).
      rewrite He in Ho. destruct Hev as (Ho' & _).
      by eapply same_oracles_trans. }
    assert (ensure_directory fallbacks_dir w1 = (Returned tt, w1)) as He1.
    { apply ensure_directory_existing.
      apply (directory_exists_evolves w0); [done|].
      destruct (ensure_directory_spec fallbacks_dir w)
        as (_ & _ & _ & _ & _ & _ & Hc).
      rewrite He in Hc. destruct (can_make w _); [by destruct Hc|].
      by destruct Hc as [msg [=]]. }
    assert (∀ i d, images !! i = Some d →
              isdir (fs w1) (parent (dest d)) = true
              ∧ ∃ r, net w (List.length (requests w) + i)%nat (url d)
                     = Responded r
                     ∧ fs w1 !! dest d = Some (File (raw r))) as Hfirst.
    { intros i d Hi. exact (main_with_files _ _ Hnd Hex i d Hi). }
    clearbody w1.
    assert (exit_code (main_with images w1).1 = 0%Z) as Hex1.
    { rewrite (main_with_started _ _ _ He1). cbn zeta.
      assert (forallb id (outcomes images (add_stdout start_line w1)) = true)
        as Hall.
      { apply outcomes_all_true. intros i d Hi.
        destruct (Hfirst i d Hi) as (Hdir & r1 & _ & Hf1).
        destruct (Hsecond i d Hi) as (r2 & Hn & Hs & Hfit).
        split.
        - rewrite openable_add_stdout.
          assert (d ∈ images) as Hin by (by eapply list_elem_of_lookup_2).
          assert (dest d ≠ []) as Hne by apply ordinary_path_nonempty, Hord, Hin.
          unfold openable. rewrite Hdir, Hf1, Hdr, (Hrw d Hin).
          by destruct (dest d).
        - exists r2. cbn [net requests quota add_stdout].
          rewrite Hnet, Hquota, Hreq, length_app, length_map. done. }
      apply successes_all in Hall. rewrite outcomes_length in Hall.
      by rewrite decide_True. }
    split; [exact Hex1|].
    intros i d Hi. destruct (Hfirst i d Hi) as (_ & r1 & Hn1 & Hf1).
    destruct (main_with_files _ _ Hnd Hex1 i d Hi) as (_ & r2 & Hn2 & Hf2).
    exists r1, r2. split; [done|]. split; [done|]. split; [|done].
    by rewrite Hnet, Hreq, length_app, length_map in Hn2.
Qed.

Lemma download_image_overwrites_witness :
  NoDup (map dest images_to_download)
  ∧ exit_code (main_with images_to_download w_two_runs).1 = 0%Z
  ∧ second_run_answered images_to_download w_two_runs
  ∧ let w1 := (main_with images_to_download w_two_runs).2 in
    exit_code (main_with images_to_download w1).1 = 0%Z
    ∧ ∀ i d, images_to_download !! i = Some d →
        ∃ r1 r2,
          net w_two_runs (List.length (requests w_two_runs) + i)%nat (url d)
          = Responded r1
          ∧ fs w1 !! dest d = Some (File (raw r1))
          ∧ net w_two_runs
              (List.length (requests w_two_runs)
               + List.length images_to_download + i)%nat (url d)
            = Responded r2
          ∧ fs (main_with images_to_download w1).2 !! dest d
            = Some (File (raw r2)).
Proof.
  assert (NoDup (map dest images_to_download)) as Hnd.
  { apply (bool_decide_eq_true_1 (NoDup (map dest images_to_download))).
    vm_compute. reflexivity. }
  assert (∀ d, d ∈ images_to_download → ordinary_path (local_path d) = true)
    as Hord.
  { intros d Hd. unfold images_to_download in Hd.
    repeat (apply elem_of_cons in Hd as [->|Hd]; [vm_compute; reflexivity|]).
    exfalso. exact (proj1 (elem_of_nil _) Hd). }
  assert (exit_code (main_with images_to_download w_two_runs).1 = 0%Z) as Hex
    by (vm_compute; reflexivity).
  assert (∀ d, d ∈ images_to_download → deny_rewrite w_two_runs (dest d) = false)
    as Hrw by (intros d _; reflexivity).
  assert (second_run_answered images_to_download w_two_runs) as Hans.
  { intros i d Hi.
    do 5 (destruct i as [|i];
          [injection Hi as <-; exists (ok_response png);
           split; [reflexivity|]; split; vm_compute; reflexivity|]).
    discriminate Hi. }
  split; [exact Hnd|]. split; [exact Hex|]. split; [exact Hans|].
  exact (proj2 download_image_overwrites images_to_download w_two_runs
           Hnd Hord Hex Hrw Hans).
Defined.

(** Two runs in a row: both end with status 0, and the hero picture is the
    one of the second run. *)
Example main_twice :
  let w1 := (main w_two_runs).2 in
  exit_code (main w_two_runs).1 = 0%Z
  ∧ fs w1 !! split_path hero_path = Some (File jpeg)
  ∧ exit_code (main w1).1 = 0%Z
  ∧ fs (main w1).2 !! split_path hero_path = Some (File png).
Proof. vm_compute. done. Qed.


(** ** More about [download_image] *)

(** X1.  Whatever happens, a call of [download_image] with an ordinary
    path touches no path of the tree but [local_path]: every other entry
    is as before, no directory is made or removed anywhere, and a file
    stays a file. *)
Theorem download_image_touches_only_local_path (url local_path : string) (w : world) :
  ordinary_path local_path = true →
  let w' := (download_image url local_path w).2 in
  (∀ q, q ≠ split_path local_path → fs w' !! q = fs w !! q)
  ∧ (∀ q, fs w !! q = Some Dir ↔ fs w' !! q = Some Dir)
  ∧ (∀ q c, fs w !! q = Some (File c) → ∃ c', fs w' !! q = Some (File c')).
Proof.
  intros _. cbn zeta.
  destruct (download_image_frame url local_path w) as (_ & _ & Hq).
  destruct (download_image_evolves url local_path w) as (_ & Hd & Hf).
  split; [exact Hq|]. split; [exact Hd|exact Hf].
Qed.

Lemma download_image_touches_only_local_path_witness :
  ordinary_path hero_path = true
  ∧ let w' := (download_image hero_url hero_path w_old_hero_third_404).2 in
    (∀ q, q ≠ split_path hero_path → fs w' !! q = fs w_old_hero_third_404 !! q)
    ∧ (∀ q, fs w_old_hero_third_404 !! q = Some Dir ↔ fs w' !! q = Some Dir)
    ∧ (∀ q c, fs w_old_hero_third_404 !! q = Some (File c) →
              ∃ c', fs w' !! q = Some (File c')).
Proof.
  assert (ordinary_path hero_path = true) as Hp by (vm_compute; reflexivity).
  split; [exact Hp|].
  exact (download_image_touches_only_local_path hero_url hero_path
           w_old_hero_third_404 Hp).
Defined.

(** X2.  A call of [download_image] calls [requests.get] exactly once,
    with [url] (the script tries no second time), and prints exactly two
    lines: first [Downloading: url], then [✓ Saved to: local_path] when
    it returns [True] and [✗ Failed to download url: error] when it returns
    [False]. *)
Theorem download_image_one_request_two_lines (url local_path : string) (w : world) :
  ordinary_path local_path = true →
  let w' := (download_image url local_path w).2 in
  requests w' = requests w ++ [url]
  ∧ ∃ line, stdout w' = stdout w ++ ["Downloading: " +:+ url; line]
            ∧ if reports_success url local_path w
              then line = "✓ Saved to: " +:+ local_path
              else ∃ msg, line = "✗ Failed to download " +:+ url +:+ ": " +:+ msg.
Proof.
  intros _. cbn zeta. unfold reports_success.
  destruct (download_image_cases url local_path w)
    as [(_ & e & _ & ->)|(_ & r & _ & ->)].
  - cbn. split; [done|]. exists (failure_line url e).
    rewrite <- app_assoc. split; [done|]. by exists (str e).
  - destruct (store_frame local_path r (requested url w)) as (_ & Hs & Hr & _).
    destruct (store local_path r (requested url w)) as [[[]|e] w']; cbn in *.
    + rewrite Hr, Hs. split; [done|]. exists (saved_line local_path).
      by rewrite <- app_assoc.
    + rewrite Hr, Hs. split; [done|]. exists (failure_line url e).
      rewrite <- app_assoc. split; [done|]. by exists (str e).
Qed.

Lemma download_image_one_request_two_lines_witness :
  ordinary_path hero_path = true
  ∧ let w' := (download_image hero_url hero_path w_offline).2 in
    requests w' = requests w_offline ++ [hero_url]
    ∧ ∃ line, stdout w' = stdout w_offline ++ ["Downloading: " +:+ hero_url; line]
              ∧ if reports_success hero_url hero_path w_offline
                then line = "✓ Saved to: " +:+ hero_path
                else ∃ msg, line = "✗ Failed to download " +:+ hero_url
                                   +:+ ": " +:+ msg.
Proof.
  assert (ordinary_path hero_path = true) as Hp by (vm_compute; reflexivity).
  split; [exact Hp|].
  exact (download_image_one_request_two_lines hero_url hero_path w_offline Hp).
Defined.



(** ** More about [ensure_directory] *)

(** [public] is made, then [public/images] is refused: the call raises and
    [public] stays. *)
Example ensure_directory_stops_half_way :
  (ensure_directory fallbacks_dir w_images_denied).1
  = Raised (OSError "[Errno 13] Permission denied: 'public/images'")
  ∧ fs (ensure_directory fallbacks_dir w_images_denied).2 !! ["public"] = Some Dir
  ∧ fs (ensure_directory fallbacks_dir w_images_denied).2 !! ["public"; "images"]
    = None.
Proof. vm_compute. done. Qed.

(** ** More about [main] *)

(** X6.  When the destination directory cannot be made, [main] ends with
    the [OSError] of [ensure_directory] and exit status 1 before anything
    else happens: nothing is printed, nothing is requested, and no file is
    written or changed. *)
Theorem main_stops_when_directory_cannot_be_made
    (images : list descriptor) (w : world) :
  can_make w (split_path fallbacks_dir) = false →
  ∃ msg, (main_with images w).1 = Raised (OSError msg)
         ∧ exit_code (main_with images w).1 = 1%Z
         ∧ stdout (main_with images w).2 = stdout w
         ∧ requests (main_with images w).2 = requests w
         ∧ ∀ q c, fs (main_with images w).2 !! q = Some (File c)
                  ↔ fs w !! q = Some (File c).
Proof.
  intros Hc.
  destruct (ensure_directory_spec fallbacks_dir w)
    as (_ & Hs & Hr & Hkeep & _ & Hnew & Hres).
  rewrite Hc in Hres. destruct Hres as [msg Hres].
  destruct (ensure_directory fallbacks_dir w) as [r0 w0] eqn:He.
  cbn [fst snd] in Hres, Hs, Hr, Hkeep, Hnew. subst r0.
  rewrite (main_with_crashed _ _ _ _ He). exists msg. cbn [fst snd exit_code].
  do 4 (split; [done|]). intros q c. split.
  - intros Hq. destruct (fs w !! q) as [n|] eqn:E.
    + rewrite (Hkeep _ _ E) in Hq. congruence.
    + by pose proof (Hnew _ _ Hq E).
  - apply Hkeep.
Qed.

Lemma main_stops_when_directory_cannot_be_made_witness :
  can_make w_public_is_file (split_path fallbacks_dir) = false
  ∧ ∃ msg, (main_with images_to_download w_public_is_file).1
           = Raised (OSError msg)
         ∧ exit_code (main_with images_to_download w_public_is_file).1 = 1%Z
         ∧ stdout (main_with images_to_download w_public_is_file).2
           = stdout w_public_is_file
         ∧ requests (main_with images_to_download w_public_is_file).2
           = requests w_public_is_file
         ∧ ∀ q c, fs (main_with images_to_download w_public_is_file).2 !! q
                  = Some (File c)
                  ↔ fs w_public_is_file !! q = Some (File c).
Proof.
  assert (can_make w_public_is_file (split_path fallbacks_dir) = false) as H
    by (vm_compute; reflexivity).
  split; [exact H|].
  exact (main_stops_when_directory_cannot_be_made images_to_download
           w_public_is_file H).
Defined.

(** X7.  A run of [main] changes nothing in the tree but the levels of
    the destination directory and the files of its descriptors, however
    it ends. *)
Theorem main_touches_only_its_files (images : list descriptor) (w : world) :
  ∀ q, q ∉ levels (split_path fallbacks_dir) →
       q ∉ map dest images →
       fs (main_with images w).2 !! q = fs w !! q.
Proof.
  intros q Hlev Hdest.
  destruct (ensure_directory_spec fallbacks_dir w) as (_ & _ & _ & _ & Hout & _).
  specialize (Hout q Hlev).
  destruct (ensure_directory fallbacks_dir w) as [[[]|e] w0] eqn:He;
    cbn [snd] in Hout.
  - rewrite (main_with_started _ _ _ He). cbn zeta.
    assert (fs (after_loop images (add_stdout start_line w0)) !! q = fs w !! q)
      as Hloop.
    { rewrite (after_loop_frame _ _ _ Hdest). exact Hout. }
    case_decide; exact Hloop.
  - rewrite (main_with_crashed _ _ _ _ He). exact Hout.
Qed.

Lemma fallbacks_path :
  split_path fallbacks_dir = ["public"; "images"; "fallbacks"].
Proof. vm_compute. reflexivity. Qed.

Lemma levels_from_self pre todo :
  todo ≠ [] → pre ++ todo ∈ levels_from pre todo.
Proof.
  revert pre. induction todo as [|c rest IH]; intros pre Hne; [done|].
  cbn [levels_from]. destruct rest as [|c' rest'].
  - apply list_elem_of_here.
  - apply list_elem_of_further.
    replace (pre ++ c :: c' :: rest') with ((pre ++ [c]) ++ c' :: rest')
      by (by rewrite <- app_assoc).
    by apply IH.
Qed.

Lemma levels_from_length_le pre todo q :
  q ∈ levels_from pre todo →
  (List.length q ≤ List.length pre + List.length todo)%nat.
Proof.
  revert pre. induction todo as [|c rest IH]; intros pre; cbn.
  - by intros ?%elem_of_nil.
  - intros [->|H%IH]%elem_of_cons.
    + rewrite length_app. cbn. lia.
    + rewrite length_app in H. cbn in H. lia.
Qed.

Lemma levels_length_le p q :
  q ∈ levels p → (List.length q ≤ List.length p)%nat.
Proof. unfold levels. intros H%levels_from_length_le. exact H. Qed.

Lemma directory_exists_isdir t p :
  directory_exists t p = true → isdir t p = true.
Proof.
  unfold directory_exists, isdir. destruct p as [|x p]; [done|].
  rewrite forallb_elem_of. intros H.
  assert (x :: p ∈ levels (x :: p)) as Hin.
  { exact (levels_from_self [] (x :: p) ltac:(discriminate)). }
  exact (H _ Hin).
Qed.

(** X8.  [main] succeeds whenever its surroundings let it: if the
    destination directory can be made, every descriptor's file lies
    directly in that directory, is not denied and is not a directory
    itself, and every request is answered without an error status by a
    body that arrives whole and fits, then [main] runs to its end, prints
    the success lines and the exit status is 0. *)
Theorem main_succeeds (images : list descriptor) (w : world) :
  can_make w (split_path fallbacks_dir) = true →
  (∀ i d, images !! i = Some d →
     parent (dest d) = split_path fallbacks_dir
     ∧ denied w (dest d) = false
     ∧ fs w !! dest d ≠ Some Dir
     ∧ ∃ r, net w (List.length (requests w) + i)%nat (url d) = Responded r
            ∧ is_error_status (status_code r) = false
            ∧ fits (body_chunks r) (stream_fault r) 0 (quota w (dest d)) = true) →
  (main_with images w).1 = Returned tt
  ∧ exit_code (main_with images w).1 = 0%Z
  ∧ successes (outcomes images (startup w).2) = List.length images.
Proof.
  intros Hmake Hitems.
  destruct (ensure_directory_spec fallbacks_dir w)
    as ((Hnet & Hdc & Hdr & Hquota) & _ & Hreq & _ & Hout & _ & Hres).
  rewrite Hmake in Hres. destruct Hres as [Hret Hex].
  destruct (ensure_directory fallbacks_dir w) as [r0 w0] eqn:He.
  cbn [fst snd] in Hnet, Hdc, Hdr, Hquota, Hreq, Hout, Hret, Hex. subst r0.
  rewrite (startup_returned _ _ He), (main_with_started _ _ _ He). cbn zeta.
  cbn [snd].
  assert (forallb id (outcomes images (add_stdout start_line w0)) = true) as Hall.
  { apply outcomes_all_true. intros i d Hi.
    destruct (Hitems i d Hi) as (Hpar & Hnd & Hnodir & r & Hn & Hs & Hfit).
    assert (dest d ≠ []) as Hne.
    { intros E. rewrite E, fallbacks_path in Hpar. discriminate Hpar. }
    assert (fs w0 !! dest d = fs w !! dest d) as Hsame.
    { apply Hout. intros Hin%levels_length_le.
      destruct (exists_last Hne) as (q & c & Eq). rewrite Eq in Hpar, Hin.
      unfold parent in Hpar. rewrite removelast_last in Hpar.
      rewrite <- Hpar, length_app in Hin. cbn [List.length] in Hin. lia. }
    split.
    - rewrite openable_add_stdout.
      unfold denied in Hnd. apply orb_false_iff in Hnd as [Hc Hr].
      unfold openable, denied.
      rewrite Hpar, (directory_exists_isdir _ _ Hex), Hsame, Hdc, Hdr, Hc, Hr.
      destruct (fs w !! dest d) as [[|c]|]; [done| |]; by destruct (dest d).
    - exists r. cbn [net requests quota add_stdout].
      by rewrite Hnet, Hquota, Hreq. }
  apply successes_all in Hall. rewrite outcomes_length in Hall.
  rewrite decide_True by exact Hall. by repeat split.
Qed.

Lemma main_succeeds_witness :
  can_make w_all_ok (split_path fallbacks_dir) = true
  ∧ (main_with images_to_download w_all_ok).1 = Returned tt
  ∧ exit_code (main_with images_to_download w_all_ok).1 = 0%Z
  ∧ successes (outcomes images_to_download (startup w_all_ok).2)
    = List.length images_to_download.
Proof.
  assert (can_make w_all_ok (split_path fallbacks_dir) = true) as H
    by (vm_compute; reflexivity).
  split; [exact H|].
  apply (main_succeeds images_to_download w_all_ok H).
  intros i d Hi.
  do 5 (destruct i as [|i];
        [injection Hi as <-;
         split; [vm_compute; reflexivity|];
         split; [reflexivity|];
         split; [vm_compute; discriminate|];
         exists (ok_response jpeg);
         split; [reflexivity|]; split; vm_compute; reflexivity|]).
  discriminate Hi.
Defined.

Lemma after_item_stdout d w :
  ∃ line, result_line d line
          ∧ stdout (after_item d w) = stdout w ++ item_lines d line.
Proof.
  unfold after_item, item_lines, result_line.
  set (w1 := add_stdout ("📥 " +:+ description d) w).
  destruct (download_image_cases (url d) (local_path d) w1)
    as [(_ & e & _ & ->)|(_ & r & _ & ->)].
  - exists (failure_line (url d) e). split; [right; by exists e|].
    cbn. by rewrite <- !app_assoc.
  - destruct (store_frame (local_path d) r (requested (url d) w1))
      as (_ & Hs & _).
    destruct (store (local_path d) r (requested (url d) w1)) as [[[]|e] w'];
      cbn [snd] in Hs.
    + exists (saved_line (local_path d)). split; [by left|].
      cbn. rewrite Hs. cbn. by rewrite <- !app_assoc.
    + exists (failure_line (url d) e). split; [right; by exists e|].
      cbn. rewrite Hs. cbn. by rewrite <- !app_assoc.
Qed.

Lemma after_loop_stdout images w :
  ∃ lines, Forall2 result_line images lines
           ∧ stdout (after_loop images w)
             = stdout w ++ concat (zip_with item_lines images lines).
Proof.
  revert w. induction images as [|d rest IH]; intros w.
  - exists []. split; [constructor|]. cbn. by rewrite app_nil_r.
  - destruct (after_item_stdout d w) as (line & Hline & Hd).
    destruct (IH (after_item d w)) as (lines & Hlines & Hrest).
    exists (line :: lines). split; [by constructor|].
    cbn [after_loop zip_with concat]. rewrite Hrest, Hd.
    by rewrite <- !app_assoc.
Qed.

(** X9.  The output of a run, once the directory is there, is the start
    line, then for each descriptor in order its four lines (the
    description, the [Downloading] line, the saved or the failure line, an
    empty line), then the summary, then either the five success lines or
    the warning. *)
Theorem main_output (images : list descriptor) (w : world) :
  (ensure_directory fallbacks_dir w).1 = Returned tt →
  ∃ lines tail,
    Forall2 result_line images lines
    ∧ (tail = success_block ∨ tail = [warning_line])
    ∧ stdout (main_with images w).2
      = stdout w
        ++ start_line :: concat (zip_with item_lines images lines)
        ++ summary (successes (outcomes images (startup w).2))
             (List.length images) :: tail.
Proof.
  intros He.
  destruct (ensure_directory_spec fallbacks_dir w) as (_ & Hs & _).
  destruct (ensure_directory fallbacks_dir w) as [[[]|e] w0] eqn:He'; [|done].
  cbn [snd] in Hs.
  rewrite (startup_returned _ _ He'), (main_with_started _ _ _ He'). cbn zeta.
  cbn [snd].
  destruct (after_loop_stdout images (add_stdout start_line w0))
    as (lines & Hlines & Hout).
  exists lines. case_decide.
  - exists success_block. split; [done|]. split; [by left|].
    cbn. rewrite Hout. cbn. rewrite Hs. by rewrite <- !app_assoc.
  - exists [warning_line]. split; [done|]. split; [by right|].
    cbn. rewrite Hout. cbn. rewrite Hs. by rewrite <- !app_assoc.
Qed.

Lemma main_output_witness :
  (ensure_directory fallbacks_dir w_first_only).1 = Returned tt
  ∧ ∃ lines tail,
      Forall2 result_line two_images lines
      ∧ (tail = success_block ∨ tail = [warning_line])
      ∧ stdout (main_with two_images w_first_only).2
        = stdout w_first_only
          ++ start_line :: concat (zip_with item_lines two_images lines)
          ++ summary (successes (outcomes two_images (startup w_first_only).2))
               (List.length two_images) :: tail.
Proof.
  assert ((ensure_directory fallbacks_dir w_first_only).1 = Returned tt) as H
    by (vm_compute; reflexivity).
  split; [exact H|].
  exact (main_output two_images w_first_only H).
Defined.

Lemma main_touches_only_its_files_witness :
  (["README.md"] ∉ levels (split_path fallbacks_dir))
  ∧ (["README.md"] ∉ map dest images_to_download)
  ∧ fs (main_with images_to_download w_with_readme).2 !! ["README.md"]
    = fs w_with_readme !! ["README.md"].
Proof.
  assert (["README.md"] ∉ levels (split_path fallbacks_dir)) as H1.
  { apply (bool_decide_eq_false_1
             (["README.md"] ∈ levels (split_path fallbacks_dir))).
    vm_compute. reflexivity. }
  assert (["README.md"] ∉ map dest images_to_download) as H2.
  { apply (bool_decide_eq_false_1
             (["README.md"] ∈ map dest images_to_download)).
    vm_compute. reflexivity. }
  split; [exact H1|]. split; [exact H2|].
  exact (main_touches_only_its_files images_to_download w_with_readme
           ["README.md"] H1 H2).
Defined.

(** ** Runs in which some downloads fail *)

Lemma after_loop_success_file images w i d :
  NoDup (map dest images) →
  images !! i = Some d →
  outcomes images w !! i = Some true →
  ∃ r, net w (List.length (requests w) + i)%nat (url d) = Responded r
       ∧ fs (after_loop images w) !! dest d = Some (File (raw r)).
Proof.
  revert w i. induction images as [|d0 rest IH]; intros w i Hnd Hi Hok; [done|].
  cbn [map] in Hnd. apply NoDup_cons in Hnd as [Hfresh Hnd].
  destruct i as [|i].
  - injection Hi as ->. cbn [outcomes] in Hok. injection Hok as Hok.
    destruct (after_item_success _ _ Hok) as (_ & r & Hn & Hf).
    exists r. rewrite Nat.add_0_r. split; [exact Hn|].
    cbn [after_loop]. by rewrite after_loop_frame.
  - cbn [outcomes] in Hok.
    destruct (IH (after_item d0 w) i Hnd Hi Hok) as (r & Hn & Hf).
    exists r. split; [|exact Hf].
    destruct (after_item_evolves d0 w) as ((Hnet & _) & _).
    rewrite Hnet, after_item_requests, length_app in Hn. cbn [List.length] in Hn.
    by replace (List.length (requests w) + S i)%nat
      with (List.length (requests w) + 1 + i)%nat by lia.
Qed.

(** X10.  Failures of other descriptors do not spoil a success: in any
    run that got past the directory, each descriptor whose call of
    [download_image] returned [True] has, at the end, the body of the
    response to its own request in its file, whatever happened to the
    others.  No two descriptors share a file. *)
Theorem main_keeps_each_success (images : list descriptor) (w : world) :
  (ensure_directory fallbacks_dir w).1 = Returned tt →
  NoDup (map dest images) →
  ∀ i d, images !! i = Some d →
         outcomes images (startup w).2 !! i = Some true →
         ∃ r, net w (List.length (requests w) + i)%nat (url d) = Responded r
              ∧ fs (main_with images w).2 !! dest d = Some (File (raw r)).
Proof.
  intros He Hnd i d Hi Hok.
  destruct (ensure_directory_spec fallbacks_dir w) as ((Hnet & _) & _ & Hreq & _).
  destruct (ensure_directory fallbacks_dir w) as [[[]|e] w0] eqn:He'; [|done].
  cbn [snd] in Hnet, Hreq.
  rewrite (startup_returned _ _ He') in Hok. cbn [snd] in Hok.
  destruct (after_loop_success_file _ _ _ _ Hnd Hi Hok) as (r & Hn & Hf).
  cbn [net requests add_stdout] in Hn. rewrite Hnet, Hreq in Hn.
  exists r. split; [exact Hn|].
  rewrite (main_with_started _ _ _ He'). cbn zeta. case_decide; exact Hf.
Qed.

Lemma main_keeps_each_success_witness :
  (ensure_directory fallbacks_dir w_first_only).1 = Returned tt
  ∧ NoDup (map dest two_images)
  ∧ two_images !! 0%nat = Some first_image
  ∧ outcomes two_images (startup w_first_only).2 !! 0%nat = Some true
  ∧ ∃ r, net w_first_only (List.length (requests w_first_only) + 0)%nat
           (url first_image) = Responded r
         ∧ fs (main_with two_images w_first_only).2 !! dest first_image
           = Some (File (raw r)).
Proof.
  assert ((ensure_directory fallbacks_dir w_first_only).1 = Returned tt) as H
    by (vm_compute; reflexivity).
  assert (NoDup (map dest two_images)) as Hnd.
  { apply (bool_decide_eq_true_1 (NoDup (map dest two_images))).
    vm_compute. reflexivity. }
  assert (two_images !! 0%nat = Some first_image) as Hi by reflexivity.
  assert (outcomes two_images (startup w_first_only).2 !! 0%nat = Some true)
    as Hok by (vm_compute; reflexivity).
  split; [exact H|]. split; [exact Hnd|]. split; [exact Hi|].
  split; [exact Hok|].
  exact (main_keeps_each_success two_images w_first_only H Hnd 0%nat
           first_image Hi Hok).
Defined.

Lemma failed_get_keeps_tree url local_path w :
  request_fails w (List.length (requests w)) url = true →
  fs (download_image url local_path w).2 = fs w.
Proof.
  intros H. destruct (download_image_cases url local_path w)
    as [(_ & e & _ & ->)|(Hno & _)]; [done|].
  unfold get_failed in Hno. unfold request_fails in H. congruence.
Qed.

Lemma after_loop_failed_keeps images w i d :
  NoDup (map dest images) →
  images !! i = Some d →
  request_fails w (List.length (requests w) + i)%nat (url d) = true →
  fs (after_loop images w) !! dest d = fs w !! dest d.
Proof.
  revert w i. induction images as [|d0 rest IH]; intros w i Hnd Hi Hfail; [done|].
  cbn [map] in Hnd. apply NoDup_cons in Hnd as [Hfresh Hnd].
  destruct i as [|i].
  - injection Hi as ->. rewrite Nat.add_0_r in Hfail.
    cbn [after_loop]. rewrite after_loop_frame by exact Hfresh.
    unfold after_item. cbn [fs add_stdout].
    by rewrite (failed_get_keeps_tree (url d) (local_path d)
                  (add_stdout ("📥 " +:+ description d) w) Hfail).
  - cbn [after_loop]. cbn [lookup list_lookup] in Hi.
    assert (dest d ≠ dest d0) as Hne.
    { intros E. apply Hfresh. rewrite <- E.
      apply list_elem_of_fmap. exists d. split; [done|].
      by eapply list_elem_of_lookup_2. }
    rewrite (IH (after_item d0 w) i Hnd Hi).
    + by apply after_item_frame.
    + destruct (after_item_evolves d0 w) as ((Hnet & _) & _).
      unfold request_fails. rewrite Hnet, after_item_requests, length_app.
      cbn [List.length].
      replace (List.length (requests w) + 1 + i)%nat
        with (List.length (requests w) + S i)%nat by lia.
      exact Hfail.
Qed.

(** X11.  A descriptor whose request fails keeps the file it had: if the
    request for it is refused by the network or answered with an error
    status, the file at its [local_path] is at the end of the run what it
    was before the run, whatever happens to the other descriptors.  (Its
    file is none of the directories on the way to the destination, and no
    two descriptors share a file.) *)
Theorem main_failed_request_keeps_old_file (images : list descriptor) (w : world) :
  NoDup (map dest images) →
  ∀ i d, images !! i = Some d →
         dest d ∉ levels (split_path fallbacks_dir) →
         request_fails w (List.length (requests w) + i)%nat (url d) = true →
         fs (main_with images w).2 !! dest d = fs w !! dest d.
Proof.
  intros Hnd i d Hi Hlev Hfail.
  destruct (ensure_directory_spec fallbacks_dir w)
    as ((Hnet & _) & _ & Hreq & _ & Hout & _).
  specialize (Hout _ Hlev).
  destruct (ensure_directory fallbacks_dir w) as [[[]|e] w0] eqn:He;
    cbn [snd] in Hnet, Hreq, Hout.
  - rewrite (main_with_started _ _ _ He). cbn zeta.
    assert (fs (after_loop images (add_stdout start_line w0)) !! dest d
            = fs w !! dest d) as Hloop.
    { rewrite (after_loop_failed_keeps _ _ _ _ Hnd Hi); [exact Hout|].
      unfold request_fails. cbn [net requests add_stdout].
      rewrite Hnet, Hreq. exact Hfail. }
    case_decide; exact Hloop.
  - rewrite (main_with_crashed _ _ _ _ He). exact Hout.
Qed.

Lemma main_failed_request_keeps_old_file_witness :
  NoDup (map dest images_to_download)
  ∧ images_to_download !! 2%nat = Some hero
  ∧ (dest hero ∉ levels (split_path fallbacks_dir))
  ∧ request_fails w_old_hero_third_404
      (List.length (requests w_old_hero_third_404) + 2)%nat (url hero) = true
  ∧ fs (main_with images_to_download w_old_hero_third_404).2 !! dest hero
    = fs w_old_hero_third_404 !! dest hero.
Proof.
  assert (NoDup (map dest images_to_download)) as Hnd.
  { apply (bool_decide_eq_true_1 (NoDup (map dest images_to_download))).
    vm_compute. reflexivity. }
  assert (images_to_download !! 2%nat = Some hero) as Hi by reflexivity.
  assert (dest hero ∉ levels (split_path fallbacks_dir)) as Hlev.
  { apply (bool_decide_eq_false_1
             (dest hero ∈ levels (split_path fallbacks_dir))).
    vm_compute. reflexivity. }
  assert (request_fails w_old_hero_third_404
            (List.length (requests w_old_hero_third_404) + 2)%nat (url hero)
          = true) as Hfail by reflexivity.
  split; [exact Hnd|]. split; [exact Hi|]. split; [exact Hlev|].
  split; [exact Hfail|].
  exact (main_failed_request_keeps_old_file images_to_download
           w_old_hero_third_404 Hnd 2%nat hero Hi Hlev Hfail).
Defined.

(** The old hero picture survives the run in which its request is answered
    with 404, and the other four pictures are stored. *)
Example main_keeps_old_hero :
  fs (main w_old_hero_third_404).2 !! split_path hero_path = Some (File png)
  ∧ exit_code (main w_old_hero_third_404).1 = 1%Z
  ∧ outcomes images_to_download (startup w_old_hero_third_404).2
    = [true; true; false; true; true].
Proof. vm_compute. done. Qed.
